(** * The DDL splitter (utilities/ddl_splitter.py): embedding and properties

    The splitter reads a SQL script, strips comments, finds the [CREATE ...;]
    statements with a list of regular expressions and writes each statement
    to a file of its own.

    Text is a list of characters.  The development covers ASCII text: a
    character is an [ascii], and the classes [\s] and [\w], [str.strip],
    [str.upper] and [str.lower] and case-insensitive matching are the ASCII
    restrictions of Python's.  Codes 128 to 255 are ordinary characters
    without case that are neither white space nor word characters. *)

From Stdlib Require Import Ascii String List ZArith Lia Bool.
From Stdlib Require Import DecimalString DecimalNat.
From stdpp Require Import gmap strings list fin_maps.
Import ListNotations.

Local Open Scope char_scope.
Local Open Scope list_scope.

Abbreviation text := (list ascii).

(** A string literal as text. *)
Definition str (s : string) : text := list_ascii_of_string s.

(** ** Characters *)

Module Char.

Definition code (c : ascii) : nat := nat_of_ascii c.

Definition between (lo hi : nat) (c : ascii) : bool :=
  (lo <=? code c)%nat && (code c <=? hi)%nat.

(** [\s] and [str.isspace] on ASCII: tab, line feed, vertical tab, form
    feed, carriage return, the four separators 0x1c-0x1f and the space. *)
Definition is_space (c : ascii) : bool :=
  between 9 13 c || between 28 32 c.

Definition is_upper (c : ascii) : bool := between 65 90 c.
Definition is_lower (c : ascii) : bool := between 97 122 c.
Definition is_digit (c : ascii) : bool := between 48 57 c.

(** [\w] on ASCII: letters, digits and the underscore. *)
Definition is_word (c : ascii) : bool :=
  is_upper c || is_lower c || is_digit c || Ascii.eqb c "_".

Definition lower (c : ascii) : ascii :=
  if is_upper c then ascii_of_nat (code c + 32) else c.

Definition upper (c : ascii) : ascii :=
  if is_lower c then ascii_of_nat (code c - 32) else c.

Definition newline : ascii := ascii_of_nat 10.
Definition dquote : ascii := ascii_of_nat 34.
Definition squote : ascii := ascii_of_nat 39.

End Char.

(** ** Regular expressions

    The fragment of Python's [re] syntax that the script uses.  A repetition
    is always over a character class ([\s+], [[^;]+], [\w+], [.*], [.*?]). *)

Inductive regex : Type :=
| Eps                                  (* the empty pattern *)
| Cls (p : ascii -> bool)              (* one character of a class *)
| Cat (r1 r2 : regex)                  (* r1 r2 *)
| Alt (r1 r2 : regex)                  (* r1|r2, r1 tried first *)
| Star (p : ascii -> bool)             (* [p]*, greedy *)
| StarLazy (p : ascii -> bool)         (* [p]*?, lazy *)
| Eol.                                 (* $ under re.MULTILINE *)

(** [(?:r)?]: greedy, so [r] is tried before the empty match. *)
Definition Opt (r : regex) : regex := Alt r Eps.

(** [[p]+] *)
Definition Plus (p : ascii -> bool) : regex := Cat (Cls p) (Star p).

Fixpoint cat (rs : list regex) : regex :=
  match rs with
  | [] => Eps
  | [r] => r
  | r :: rs' => Cat r (cat rs')
  end.

(** A literal character, and the same under [re.IGNORECASE]. *)
Definition chr (c : ascii) : regex := Cls (Ascii.eqb c).
Definition chr_i (c : ascii) : regex :=
  Cls (fun x => Ascii.eqb (Char.lower x) (Char.lower c)).

(** A literal word under [re.IGNORECASE]. *)
Definition lit_i (s : string) : regex := cat (map chr_i (str s)).
Definition lit (s : string) : regex := cat (map chr (str s)).

(** *** The backtracking matcher

    [rmatch r s k] matches [r] at the start of [s] and hands the rest of the
    text to the continuation [k]; when [k] fails the matcher backtracks into
    [r], in the order of Python's engine: the left alternative first, the
    longest repetition first for a greedy star and the shortest first for a
    lazy one. *)

Section Matcher.
Context {A : Type}.

Fixpoint star_greedy (p : ascii -> bool) (s : text)
    (k : text -> option A) : option A :=
  match s with
  | c :: s' =>
      if p c then
        match star_greedy p s' k with
        | Some x => Some x
        | None => k s
        end
      else k s
  | [] => k s
  end.

Fixpoint star_lazy (p : ascii -> bool) (s : text)
    (k : text -> option A) : option A :=
  match k s with
  | Some x => Some x
  | None =>
      match s with
      | c :: s' => if p c then star_lazy p s' k else None
      | [] => None
      end
  end.

Definition at_eol (s : text) : bool :=
  match s with
  | [] => true
  | c :: _ => Ascii.eqb c Char.newline
  end.

Fixpoint rmatch (r : regex) (s : text) (k : text -> option A) : option A :=
  match r with
  | Eps => k s
  | Cls p =>
      match s with
      | c :: s' => if p c then k s' else None
      | [] => None
      end
  | Cat r1 r2 => rmatch r1 s (fun s' => rmatch r2 s' k)
  | Alt r1 r2 =>
      match rmatch r1 s k with
      | Some x => Some x
      | None => rmatch r2 s k
      end
  | Star p => star_greedy p s k
  | StarLazy p => star_lazy p s k
  | Eol => if at_eol s then k s else None
  end.
End Matcher.

(** The match of [r] at the start of [s], as the matched text and the rest:
    [pattern.match(s)]. *)
Definition prefix_match (r : regex) (s : text) : option (text * text) :=
  match rmatch r s Some with
  | Some rest => Some (take (length s - length rest) s, rest)
  | None => None
  end.


(** [pattern.finditer(s)]: the matches that do not overlap, scanning from the
    left, each with its start offset.  After a match the scan resumes at its
    end; where nothing matches it moves one character on.  After an empty
    match it moves one character on as well (no pattern of the script
    matches the empty text, see [Patterns.patterns_never_empty]). *)
Fixpoint finditer_from (fuel : nat) (r : regex) (off : nat) (s : text)
    : list (nat * text) :=
  match fuel with
  | O => []
  | S fuel' =>
      match prefix_match r s with
      | Some (m, rest) =>
          (off, m) ::
          match m with
          | [] =>
              match s with
              | [] => []
              | _ :: s' => finditer_from fuel' r (S off) s'
              end
          | _ => finditer_from fuel' r (off + length m) rest
          end
      | None =>
          match s with
          | [] => []
          | _ :: s' => finditer_from fuel' r (S off) s'
          end
      end
  end.

Definition finditer (r : regex) (s : text) : list (nat * text) :=
  finditer_from (S (length s)) r 0 s.

(** [re.findall(r, s)] for a pattern without capture groups. *)
Definition findall (r : regex) (s : text) : list text :=
  map snd (finditer r s).

(** [re.sub(r, repl, s)] for a replacement without group references. *)
Fixpoint sub_from (fuel : nat) (r : regex) (repl : text) (s : text) : text :=
  match fuel with
  | O => s
  | S fuel' =>
      match prefix_match r s with
      | Some (m, rest) =>
          repl ++
          match m with
          | [] =>
              match s with
              | [] => []
              | c :: s' => c :: sub_from fuel' r repl s'
              end
          | _ => sub_from fuel' r repl rest
          end
      | None =>
          match s with
          | [] => []
          | c :: s' => c :: sub_from fuel' r repl s'
          end
      end
  end.

Definition sub (r : regex) (repl : text) (s : text) : text :=
  sub_from (S (length s)) r repl s.

(** ** Python's string methods, on ASCII text *)

Module Str.

Fixpoint lstrip (s : text) : text :=
  match s with
  | c :: s' => if Char.is_space c then lstrip s' else s
  | [] => []
  end.

Definition rstrip (s : text) : text := rev (lstrip (rev s)).

(** [s.strip()] *)
Definition strip (s : text) : text := rstrip (lstrip s).

Definition upper (s : text) : text := map Char.upper s.
Definition lower (s : text) : text := map Char.lower s.

(** [s.startswith(p)] *)
Fixpoint startswith (p s : text) : bool :=
  match p, s with
  | [], _ => true
  | a :: p', b :: s' => Ascii.eqb a b && startswith p' s'
  | _ :: _, [] => false
  end.

(** [s.split(sep)] for a separator of one character: one more piece than
    there are separators. *)
Fixpoint split (sep : ascii) (s : text) : list text :=
  match s with
  | [] => [[]]
  | c :: s' =>
      if Ascii.eqb c sep then [] :: split sep s'
      else
        match split sep s' with
        | piece :: pieces => (c :: piece) :: pieces
        | [] => [[c]]
        end
  end.

(** [pieces[-1]] of a list that is not empty. *)
Definition last_piece (pieces : list text) : text := List.last pieces [].

(** [str(n)] for a natural number. *)
Definition of_nat (n : nat) : text :=
  str (NilEmpty.string_of_uint (Nat.to_uint n)).

(** The format [{n:04d}]: decimal, padded with zeros on the left to four digits. *)
Definition pad4 (n : nat) : text :=
  let d := of_nat n in
  repeat "0" (4 - length d) ++ d.

End Str.

(** ** The splitter: text processing *)

Module DDLSplitter.

(** [\s+] *)
Definition ws : regex := Plus Char.is_space.

(** [[^;]] *)
Definition not_semi (c : ascii) : bool := negb (Ascii.eqb c ";").

(** [CREATE\s+(?:OR\s+REPLACE\s+)?], the start of every pattern. *)
Definition create_or_replace : list regex :=
  [lit_i "CREATE"; ws; Opt (cat [lit_i "OR"; ws; lit_i "REPLACE"; ws])].

(** [\s+[^;]+;], the end of every pattern. *)
Definition up_to_semi : list regex := [ws; Plus not_semi; chr_i ";"].

Fixpoint alts (rs : list regex) : regex :=
  match rs with
  | [] => Eps
  | [r] => r
  | r :: rs' => Alt r (alts rs')
  end.

(** [DDL_PATTERNS], in the order of the source; every pattern is used with
    [re.IGNORECASE | re.DOTALL]. *)
Definition DDL_PATTERNS : list regex :=
  [ (* CREATE\s+(?:OR\s+REPLACE\s+)?(?:TEMP(?:ORARY)?\s+)?TABLE\s+[^;]+; *)
    cat (create_or_replace ++
         [Opt (cat [lit_i "TEMP"; Opt (lit_i "ORARY"); ws]); lit_i "TABLE"]
         ++ up_to_semi);
    (* CREATE\s+(?:OR\s+REPLACE\s+)?VIEW\s+[^;]+; *)
    cat (create_or_replace ++ [lit_i "VIEW"] ++ up_to_semi);
    (* CREATE\s+(?:OR\s+REPLACE\s+)?(?:MATERIALIZED\s+)?VIEW\s+[^;]+; *)
    cat (create_or_replace ++
         [Opt (cat [lit_i "MATERIALIZED"; ws]); lit_i "VIEW"] ++ up_to_semi);
    cat (create_or_replace ++ [lit_i "FUNCTION"] ++ up_to_semi);
    cat (create_or_replace ++ [lit_i "PROCEDURE"] ++ up_to_semi);
    cat (create_or_replace ++ [lit_i "SEQUENCE"] ++ up_to_semi);
    cat (create_or_replace ++ [lit_i "STREAM"] ++ up_to_semi);
    cat (create_or_replace ++ [lit_i "TASK"] ++ up_to_semi);
    cat (create_or_replace ++ [lit_i "PIPE"] ++ up_to_semi);
    cat (create_or_replace ++ [lit_i "FILE"; ws; lit_i "FORMAT"] ++ up_to_semi);
    cat (create_or_replace ++ [lit_i "WAREHOUSE"] ++ up_to_semi);
    cat (create_or_replace ++ [lit_i "DATABASE"] ++ up_to_semi);
    cat (create_or_replace ++ [lit_i "SCHEMA"] ++ up_to_semi);
    (* ...(?:MASKING|ROW\s+ACCESS|AGGREGATION|AUTHENTICATION|JOIN|PASSWORD
          |PRIVACY|PROJECTION|SESSION)\s+POLICY\s+[^;]+; *)
    cat (create_or_replace ++
         [alts [lit_i "MASKING"; cat [lit_i "ROW"; ws; lit_i "ACCESS"];
                lit_i "AGGREGATION"; lit_i "AUTHENTICATION"; lit_i "JOIN";
                lit_i "PASSWORD"; lit_i "PRIVACY"; lit_i "PROJECTION";
                lit_i "SESSION"];
          ws; lit_i "POLICY"] ++ up_to_semi);
    cat (create_or_replace ++ [lit_i "TAG"] ++ up_to_semi);
    cat (create_or_replace ++ [lit_i "STORAGE"; ws; lit_i "INTEGRATION"]
         ++ up_to_semi);
    (* ...(?:EXTERNAL|HYBRID|ICEBERG)\s+TABLE\s+[^;]+; *)
    cat (create_or_replace ++
         [alts [lit_i "EXTERNAL"; lit_i "HYBRID"; lit_i "ICEBERG"];
          ws; lit_i "TABLE"] ++ up_to_semi);
    cat (create_or_replace ++ [lit_i "DYNAMIC"; ws; lit_i "TABLE"] ++ up_to_semi);
    cat (create_or_replace ++ [lit_i "EVENT"; ws; lit_i "TABLE"] ++ up_to_semi);
    cat (create_or_replace ++ [lit_i "SEMANTIC"; ws; lit_i "VIEW"] ++ up_to_semi);
    cat (create_or_replace ++ [lit_i "ALERT"] ++ up_to_semi);
    cat (create_or_replace ++ [lit_i "DBT"; ws; lit_i "PROJECT"] ++ up_to_semi);
    cat (create_or_replace ++
         [lit_i "DATA"; ws; lit_i "METRIC"; ws; lit_i "FUNCTION"] ++ up_to_semi)
  ].


(** *** Comments and white space *)

(** [.] without [re.DOTALL] *)
Definition not_newline (c : ascii) : bool := negb (Ascii.eqb c Char.newline).
(** [.] with [re.DOTALL] *)
Definition any_char (c : ascii) : bool := true.

(** [--.*$] with [re.MULTILINE] *)
Definition LINE_COMMENT : regex := cat [lit "--"; Star not_newline; Eol].
(** [/\*.*?\*/] with [re.DOTALL] *)
Definition BLOCK_COMMENT : regex := cat [lit "/*"; StarLazy any_char; lit "*/"].

Definition normalize (content : text) : text :=
  let content := sub LINE_COMMENT [] content in
  let content := sub BLOCK_COMMENT [] content in
  sub ws (str " ") content.

(** *** Finding the statements *)

(** The loop over [DDL_PATTERNS]: [all_statements.extend(re.findall(...))]. *)
Definition pattern_statements (content : text) : list text :=
  fold_left (fun all_statements pattern => all_statements ++ findall pattern content)
            DDL_PATTERNS [].

(** The fallback: split on [;] and keep what starts with CREATE. *)
Definition fallback_statements (content : text) : list text :=
  map (fun stmt => Str.strip stmt ++ str ";")
      (List.filter (fun stmt => Str.startswith (str "CREATE") (Str.upper (Str.strip stmt)))
                   (Str.split ";" content)).

(** [all_statements] of [split_single_file], from the normalized content. *)
Definition all_statements (content : text) : list text :=
  match pattern_statements content with
  | [] => fallback_statements content
  | found => found
  end.

(** *** Names *)

(** [CREATE\s+(?:OR\s+REPLACE\s+)?] with [re.IGNORECASE] *)
Definition CREATE_PREFIX : regex := cat create_or_replace.

(** The class of the double and the single quote. *)
Definition is_quote (c : ascii) : bool :=
  Ascii.eqb c Char.dquote || Ascii.eqb c Char.squote.

(** [[^\s(]] *)
Definition name_char (c : ascii) : bool :=
  negb (Char.is_space c || Ascii.eqb c "(").

(** [re.match(r'(\w+)\s+([^\s(]+)', s)]: the two groups of the match. *)
Definition match_type_and_name (s : text) : option (text * text) :=
  rmatch (Plus Char.is_word) s (fun s1 =>
  rmatch ws s1 (fun s2 =>
  rmatch (Plus name_char) s2 (fun s3 =>
    Some (take (length s - length s1) s, take (length s2 - length s3) s2)))).

(** What a run takes from its process and its operating system: Python's
    [hash] of a string, which depends on the hash seed of the process, and
    whether [open(path, 'w')] succeeds for a path that is not a directory
    (it fails for a name the system refuses or a place without permission). *)
Record env : Type := {
  hash : text -> Z;
  open_ok : list text -> bool
}.

Definition _extract_object_name (e : env) (ddl_statement : text) : text :=
  let clean_ddl := sub CREATE_PREFIX [] ddl_statement in
  match match_type_and_name (Str.strip clean_ddl) with
  | Some (object_type, object_name) =>
      let clean_name := sub (Cls is_quote) [] object_name in
      let clean_name := Str.last_piece (Str.split "." clean_name) in
      Str.lower object_type ++ str "_" ++ clean_name
  | None =>
      str "object_" ++ Str.of_nat (Z.to_nat (hash e ddl_statement mod 10000))
  end.

(** The class of [_sanitize_filename]: the characters [< > : / \ | ? *] and
    the double quote. *)
Definition is_invalid_char (c : ascii) : bool :=
  existsb (Ascii.eqb c) (str "<>:" ++ [Char.dquote] ++ str "/\|?*").

Definition _sanitize_filename (filename : text) : text :=
  let sanitized := sub (Cls is_invalid_char) (str "_") filename in
  if (200 <? length sanitized)%nat then take 200 sanitized else sanitized.

(** ** Paths and the file system

    A path is the list of its components below the working directory, as
    [pathlib.Path] splits it ([..] and symbolic links are not resolved).
    The file system maps a path to a file with its text or to a directory;
    the empty path is the working directory. *)

Abbreviation path := (list text).

Inductive node : Type :=
| File (content : text)
| Dir.

Abbreviation filesystem := (gmap path node).

Module Path.

(** [Path(s)] *)
Definition of_text (s : text) : path :=
  List.filter (fun c => negb (bool_decide (c = []) || bool_decide (c = str ".")))
              (Str.split "/" s).

(** [p.name], [p.parent], [p / name] *)
Definition name (p : path) : text := List.last p [].
Definition parent (p : path) : path := removelast p.
Definition join (p : path) (name : text) : path := p ++ [name].

(** [name.rfind('.')] *)
Fixpoint rfind_dot (name : text) : option nat :=
  match name with
  | [] => None
  | c :: name' =>
      match rfind_dot name' with
      | Some i => Some (S i)
      | None => if Ascii.eqb c "." then Some 0%nat else None
      end
  end.

(** [p.suffix] and [p.stem]: the name is cut at its last dot, unless that
    dot is the first or the last character. *)
Definition suffix (p : path) : text :=
  match rfind_dot (name p) with
  | Some i =>
      if (0 <? i)%nat && (i <? length (name p) - 1)%nat
      then drop i (name p) else []
  | None => []
  end.

Definition stem (p : path) : text :=
  match rfind_dot (name p) with
  | Some i =>
      if (0 <? i)%nat && (i <? length (name p) - 1)%nat
      then take i (name p) else name p
  | None => name p
  end.

Definition is_file (fs : filesystem) (p : path) : bool :=
  match fs !! p with
  | Some (File _) => true
  | _ => false
  end.

Definition is_dir (fs : filesystem) (p : path) : bool :=
  match p with
  | [] => true
  | _ => match fs !! p with
         | Some Dir => true
         | _ => false
         end
  end.

(** [os.path.exists] *)
Definition exists_ (fs : filesystem) (p : path) : bool :=
  is_file fs p || is_dir fs p.

(** [p.mkdir(parents=True, exist_ok=True)]: every directory on the way is
    created; a file on the way raises, and then nothing is created. *)
Fixpoint mkdir_from (fs : filesystem) (done : path) (todo : list text)
    : option filesystem :=
  match todo with
  | [] => Some fs
  | c :: todo' =>
      if is_file fs (done ++ [c]) then None
      else mkdir_from (<[done ++ [c] := Dir]> fs) (done ++ [c]) todo'
  end.

Definition mkdir (fs : filesystem) (p : path) : option filesystem :=
  mkdir_from fs [] p.

(** [open(p, 'r').read()] *)
Definition read (fs : filesystem) (p : path) : option text :=
  match fs !! p with
  | Some (File content) => Some content
  | _ => None
  end.

(** The order of paths, component by component. *)
Fixpoint text_leb (a b : text) : bool :=
  match a, b with
  | [], _ => true
  | _ :: _, [] => false
  | x :: a', y :: b' =>
      (Char.code x <? Char.code y)%nat ||
      ((Char.code x =? Char.code y)%nat && text_leb a' b')
  end.

Fixpoint leb (p q : path) : bool :=
  match p, q with
  | [], _ => true
  | _ :: _, [] => false
  | x :: p', y :: q' =>
      if bool_decide (x = y) then leb p' q' else text_leb x y
  end.

Fixpoint insert_sorted (p : path) (ps : list path) : list path :=
  match ps with
  | [] => [p]
  | q :: ps' => if leb p q then p :: ps else q :: insert_sorted p ps'
  end.

(** [sorted(ps)] *)
Definition sorted (ps : list path) : list path :=
  fold_right insert_sorted [] ps.

(** [p] is strictly below the directory [d]. *)
Definition below (d p : path) : bool :=
  bool_decide (take (length d) p = d) && (length d <? length p)%nat.

(** The files of [d.rglob('*')]. *)
Definition rglob_files (fs : filesystem) (d : path) : list path :=
  List.filter (fun p => below d p && is_file fs p) (map fst (map_to_list fs)).

End Path.

(** ** The splitter: files *)

(** [open(filepath, 'w').write(data)] *)
Definition write_file (e : env) (fs : filesystem) (filepath : path) (data : text)
    : option filesystem :=
  if Path.is_dir fs filepath then None
  else if open_ok e filepath then Some (<[filepath := File data]> fs)
  else None.

(** The file name of the statement with ordinal [i]. *)
Definition statement_filename (e : env) (source_prefix : text) (i : nat)
    (statement : text) : text :=
  let object_name := _extract_object_name e statement in
  let sanitized_name := _sanitize_filename object_name in
  source_prefix ++ str "_" ++ Str.pad4 i ++ str "_" ++ sanitized_name ++ str ".sql".

(** The loop [for i, statement in enumerate(all_statements, 1)], from the
    ordinal [i] on; the state is the file system and [successful_splits]. *)
Fixpoint write_statements (e : env) (source_prefix : text) (output_dir : path)
    (i : nat) (statements : list text) (st : filesystem * nat)
    : filesystem * nat :=
  match statements with
  | [] => st
  | statement :: rest =>
      let st' :=
        match Str.strip statement with
        | [] => st                                   (* continue *)
        | _ =>
            let filename := statement_filename e source_prefix i statement in
            let filepath := Path.join output_dir filename in
            match write_file e (fst st) filepath (Str.strip statement ++ [Char.newline]) with
            | Some fs' => (fs', S (snd st))
            | None => st                             (* except Exception *)
            end
        end in
      write_statements e source_prefix output_dir (S i) rest st'
  end.

(** [split_single_file]: the new file system and, unless an exception leaves
    the function, [(total_statements, successful_splits)]. *)
Definition split_single_file (e : env) (fs : filesystem)
    (input_file output_dir : path) : filesystem * option (nat * nat) :=
  match Path.mkdir fs output_dir with
  | None => (fs, None)
  | Some fs =>
      match Path.read fs input_file with
      | None => (fs, None)
      | Some content =>
          let content := normalize content in
          let statements := all_statements content in
          let '(fs, successful_splits) :=
            write_statements e (Path.stem input_file) output_dir 1 statements (fs, 0%nat) in
          (fs, Some (length statements, successful_splits))
      end
  end.

(** [_get_default_output_dir] *)
Definition _get_default_output_dir (fs : filesystem) (input_path : path) : path :=
  if Path.is_file fs input_path
  then Path.join (Path.parent input_path) (Path.stem input_path ++ str "_split")
  else Path.join (Path.parent input_path) (Path.name input_path ++ str "_split").

Definition sql_extensions : list text :=
  [str ".sql"; str ".ddl"; str ".SQL"; str ".DDL"].

(** [_find_ddl_files] *)
Definition _find_ddl_files (fs : filesystem) (directory : path) : list path :=
  Path.sorted
    (List.filter (fun file_path => bool_decide (Path.suffix file_path ∈ sql_extensions))
                 (Path.rglob_files fs directory)).

(** The loop of the folder mode; the state is the file system,
    [total_files_processed] and [total_statements_processed]. *)
Fixpoint split_files (e : env) (output_dir : path) (ddl_files : list path)
    (st : filesystem * nat * nat) : filesystem * nat * nat :=
  match ddl_files with
  | [] => st
  | ddl_file :: rest =>
      let '(fs, files, statements) := st in
      let file_output_dir := Path.join output_dir (Path.stem ddl_file) in
      let st' :=
        match split_single_file e fs ddl_file file_output_dir with
        | (fs', Some (_, successful)) => (fs', S files, (statements + successful)%nat)
        | (fs', None) => (fs', files, statements)     (* except Exception *)
        end in
      split_files e output_dir rest st'
  end.

(** [split_ddl]: the new file system and, unless an exception leaves the
    function, [(total_files_processed, total_statements_processed)]. *)
Definition split_ddl (e : env) (fs : filesystem) (input_path output_dir : path)
    : filesystem * option (nat * nat) :=
  if Path.is_file fs input_path then
    match split_single_file e fs input_path output_dir with
    | (fs', Some (_, successful_splits)) => (fs', Some (1%nat, successful_splits))
    | (fs', None) => (fs', None)
    end
  else
    match _find_ddl_files fs input_path with
    | [] => (fs, Some (0%nat, 0%nat))
    | ddl_files =>
        let '(fs', files, statements) :=
          split_files e output_dir ddl_files (fs, 0%nat, 0%nat) in
        (fs', Some (files, statements))
    end.

(** [DDLSplitter(input_path, output_dir)]: the output directory of the run. *)
Definition output_dir_of (fs : filesystem) (input_path : text)
    (output_dir : option text) : path :=
  match output_dir with
  | Some (c :: o) => Path.of_text (c :: o)
  | _ => _get_default_output_dir fs (Path.of_text input_path)
  end.

End DDLSplitter.

Import DDLSplitter.

(** ** The command line *)

Module Cli.

(** What [input()] meets on standard input: a line, or the user's interrupt.
    The end of the list is the end of the input ([EOFError]). *)
Inductive stdin_event : Type :=
| Line (s : text)
| CtrlC.

(** A prompt returns an answer and leaves the rest of the input, or ends the
    process with [sys.exit(code)]. *)
Inductive prompted (A : Type) : Type :=
| Answer (a : A) (rest : list stdin_event)
| SysExit (code : Z).
Arguments Answer {A} a rest.
Arguments SysExit {A} code.

(** [s.endswith(suffix)] *)
Definition endswith (suffix s : text) : bool :=
  Str.startswith (rev suffix) (rev s).

(** [get_user_input] *)
Fixpoint get_user_input (fs : filesystem) (stdin : list stdin_event)
    : prompted text :=
  match stdin with
  | [] => SysExit 0
  | CtrlC :: _ => SysExit 0
  | Line l :: stdin' =>
      let input_path := Str.strip l in
      match input_path with
      | [] => get_user_input fs stdin'
      | _ =>
          if negb (Path.exists_ fs (Path.of_text input_path)) then
            get_user_input fs stdin'
          else if Path.is_file fs (Path.of_text input_path)
                  && negb (endswith (str ".sql") (Str.lower input_path)
                           || endswith (str ".ddl") (Str.lower input_path)) then
            match stdin' with
            | [] => SysExit 0
            | CtrlC :: _ => SysExit 0
            | Line response :: stdin'' =>
                if bool_decide (Str.lower response ∈ [str "y"; str "yes"])
                then Answer input_path stdin''
                else get_user_input fs stdin''
            end
          else Answer input_path stdin'
      end
  end.

(** [get_output_directory] *)
Definition get_output_directory (stdin : list stdin_event)
    : prompted (option text) :=
  match stdin with
  | [] => SysExit 0
  | CtrlC :: _ => SysExit 0
  | Line l :: stdin' =>
      match Str.strip l with
      | [] => Answer None stdin'
      | output_dir => Answer (Some output_dir) stdin'
      end
  end.

(** Where a [KeyboardInterrupt] that is not an answer to a prompt arrives:
    in the interactive block of [main] outside [input()], or while
    [split_ddl] runs. *)
Inductive interrupt : Type :=
| NoInterrupt
| InInteractiveBlock
| WhileSplitting.

(** From the validation of the input path to the end of [main]. *)
Definition validate_and_split (e : env) (fs : filesystem) (input_path : text)
    (output_dir : option text) (int : interrupt) : Z :=
  if negb (Path.exists_ fs (Path.of_text input_path)) then 1
  else
    match int with
    | WhileSplitting => 1                       (* except KeyboardInterrupt *)
    | _ =>
        match split_ddl e fs (Path.of_text input_path)
                (output_dir_of fs input_path output_dir) with
        | (_, Some (files_processed, statements_processed)) =>
            if (0 <? statements_processed)%nat then 0 else 1
        | (_, None) => 1                        (* except Exception *)
        end
    end.

(** [main]: the exit status of the process; [argv] is [sys.argv]. *)
Definition main (e : env) (fs : filesystem) (argv : list text)
    (stdin : list stdin_event) (int : interrupt) : Z :=
  match argv with
  | [] => 1
  | [_] =>
      match int with
      | InInteractiveBlock => 0                 (* except KeyboardInterrupt: return *)
      | _ =>
          match get_user_input fs stdin with
          | SysExit code => code
          | Answer input_path stdin' =>
              match get_output_directory stdin' with
              | SysExit code => code
              | Answer output_dir _ =>
                  validate_and_split e fs input_path output_dir int
              end
          end
      end
  | _ :: a :: args =>
      if bool_decide (a ∈ [str "--help"; str "-h"; str "help"]) then 0
      else validate_and_split e fs a (head args) int
  end.

End Cli.

(** ** What a pattern matches

    [Matches r u v]: the pattern [r] matches the text [u] when [v] is the
    text that follows ([v] matters to [$] only). *)

Inductive Matches : regex -> text -> text -> Prop :=
| MEps v : Matches Eps [] v
| MCls p c v : p c = true -> Matches (Cls p) [c] v
| MCat r1 r2 u1 u2 v :
    Matches r1 u1 (u2 ++ v) -> Matches r2 u2 v -> Matches (Cat r1 r2) (u1 ++ u2) v
| MAltL r1 r2 u v : Matches r1 u v -> Matches (Alt r1 r2) u v
| MAltR r1 r2 u v : Matches r2 u v -> Matches (Alt r1 r2) u v
| MStar p u v : forallb p u = true -> Matches (Star p) u v
| MStarLazy p u v : forallb p u = true -> Matches (StarLazy p) u v
| MEol v : at_eol v = true -> Matches Eol [] v.

(** Induction on a match, with the names that the proofs use. *)
Ltac matches_induction M :=
  induction M as [v|p c v Hp|r1 r2 u1 u2 v M1 IH1 M2 IH2|r1 r2 u v M IH
                 |r1 r2 u v M IH|p u v Hu|p u v Hu|v He].

(** Checks on a pattern that are computed from its syntax. *)
Module Syntax.

Definition all_ascii : list ascii := map ascii_of_nat (seq 0 256).

(** Every character of the class [p] is in the class [q]. *)
Definition cls_sub (p q : ascii -> bool) : bool :=
  forallb (fun c => implb (p c) (q c)) all_ascii.

(** Every character of every match is in the class [q]. *)
Fixpoint all_chars (q : ascii -> bool) (r : regex) : bool :=
  match r with
  | Eps | Eol => true
  | Cls p | Star p | StarLazy p => cls_sub p q
  | Cat r1 r2 | Alt r1 r2 => all_chars q r1 && all_chars q r2
  end.

(** No match is the empty text. *)
Fixpoint nonempty (r : regex) : bool :=
  match r with
  | Cls _ => true
  | Cat r1 r2 => nonempty r1 || nonempty r2
  | Alt r1 r2 => nonempty r1 && nonempty r2
  | _ => false
  end.

(** The pattern does not look at what follows the match. *)
Fixpoint no_eol (r : regex) : bool :=
  match r with
  | Eol => false
  | Cat r1 r2 | Alt r1 r2 => no_eol r1 && no_eol r2
  | _ => true
  end.


Definition not_space (c : ascii) : bool := negb (Char.is_space c).

Definition is_semi (c : ascii) : bool := Ascii.eqb c ";".

(** The pattern is a sequence whose last part is the semicolon and whose
    other parts match no semicolon. *)
Fixpoint semi_terminated (r : regex) : bool :=
  match r with
  | Cat r1 r2 => all_chars not_semi r1 && no_eol r1 && semi_terminated r2
  | Cls p => cls_sub p is_semi
  | _ => false
  end.

End Syntax.

(** ** Notions used to state the properties *)

Module Spec.

(** The text [m] stands in [s] at the offset [off]. *)
Definition occurs_at (s : text) (off : nat) (m : text) : Prop :=
  take (length m) (drop off s) = m.

(** [enumerate(l, i)] *)
Fixpoint enumerate (i : nat) (l : list text) : list (nat * text) :=
  match l with
  | [] => []
  | x :: l' => (i, x) :: enumerate (S i) l'
  end.

(** The file that the loop of [split_single_file] opens for the statement
    with the ordinal [n]. *)
Definition target (e : env) (source_prefix : text) (output_dir : path)
    (ns : nat * text) : path :=
  Path.join output_dir (statement_filename e source_prefix (fst ns) (snd ns)).

(** The file and the text written for a statement. *)
Definition output_of (e : env) (source_prefix : text) (output_dir : path)
    (ns : nat * text) : path * text :=
  (target e source_prefix output_dir ns, Str.strip (snd ns) ++ [Char.newline]).

(** The statements, with their ordinals, for which the loop writes a file in
    the file system [fs]: those that are not empty when trimmed and whose
    file can be opened. *)
Definition written (e : env) (fs : filesystem) (source_prefix : text)
    (output_dir : path) (i : nat) (statements : list text) : list (nat * text) :=
  List.filter
    (fun ns =>
       negb (bool_decide (Str.strip (snd ns) = []))
       && negb (Path.is_dir fs (target e source_prefix output_dir ns))
       && open_ok e (target e source_prefix output_dir ns))
    (enumerate i statements).

(** The effect of a list of writes on the file system. *)
Definition apply_writes (fs : filesystem) (ws : list (path * text)) : filesystem :=
  fold_left (fun fs pd => <[fst pd := File (snd pd)]> fs) ws fs.

(** Every match of the scan stands in the text at its offset, at or after
    [lo]; the matches that follow start after it and after its end. *)
Fixpoint scanned (s : text) (lo : nat) (l : list (nat * text)) : Prop :=
  match l with
  | [] => True
  | (off, m) :: l' =>
      (lo <= off)%nat /\ occurs_at s off m /\
      scanned s (Nat.max (S off) (off + length m)) l'
  end.


(** The number that a text of decimal digits denotes. *)
Definition decimal_value (s : text) : option nat :=
  option_map Nat.of_uint (NilEmpty.uint_of_string (string_of_list_ascii s)).

(** What [re.sub] does with the class of [_sanitize_filename]. *)
Definition replace_invalid (c : ascii) : ascii :=
  if is_invalid_char c then "_" else c.

(** Every directory from [done] down to [done ++ todo] is there. *)
Definition dirs_there (fs : filesystem) (done : path) (todo : list text) : Prop :=
  forall k, (0 < k <= length todo)%nat -> fs !! (done ++ take k todo) = Some Dir.

(** Every file of the directory [out] can be written: none of its names
    is a directory and the system opens each of them. *)
Definition all_writable (e : env) (fs : filesystem) (out : path) : Prop :=
  forall name,
    Path.is_dir fs (Path.join out name) = false /\
    open_ok e (Path.join out name) = true.


(** The text ends with a semicolon. *)
Definition ends_with_semi (s : text) : Prop := exists w, s = w ++ [";"].

End Spec.

(** ** The documents of the examples *)

Module Demo.

(** An environment in which every file can be opened. *)
Definition env_with_hash (h : Z) : env :=
  {| hash := fun _ => h; open_ok := fun _ => true |}.

Definition demo_env : env := env_with_hash 0.

Definition demo_text : text :=
  str "CREATE TABLE t1 (x INT); CREATE VIEW v1 AS SELECT * FROM t1;".

(** A working directory that holds [demo.sql] only. *)
Definition demo_fs : filesystem := {[ [str "demo.sql"] := File demo_text ]}.

Definition demo_out : path := output_dir_of demo_fs (str "demo.sql") None.

(** [CREATE TABLE "My.Schema"."Table 1" (x INT);] *)
Definition quoted_statement : text :=
  str "CREATE TABLE " ++ [Char.dquote] ++ str "My.Schema" ++ [Char.dquote]
  ++ str "." ++ [Char.dquote] ++ str "Table 1" ++ [Char.dquote] ++ str " (x INT);".

(** [CREATE OR REPLACE VIEW "My.Schema"."Table 1" AS SELECT 1;] *)
Definition quoted_view : text :=
  str "CREATE OR REPLACE VIEW " ++ [Char.dquote] ++ str "My.Schema" ++ [Char.dquote]
  ++ str "." ++ [Char.dquote] ++ str "Table 1" ++ [Char.dquote] ++ str " AS SELECT 1;".

(** A view declared before a table. *)
Definition view_then_table : text :=
  str "CREATE VIEW v AS SELECT 1; CREATE TABLE t (x INT);".


(** A script that only the fallback splits. *)
Definition fallback_text : text := str "CREATE FOO a; create bar b;".
Definition fallback_fs : filesystem := {[ [str "demo.sql"] := File fallback_text ]}.

(** A directory with a script and a text file. *)
Definition folder_fs : filesystem :=
  {[ [str "in"; str "a.sql"] := File (str "CREATE TABLE a (x INT);");
     [str "in"; str "notes.txt"] := File (str "CREATE TABLE n (x INT);");
     [str "in"] := Dir ]}.

End Demo.

(** ** Reading a file in chunks *)

Module Chunks.




End Chunks.

(** ** Further notions used to state properties *)

Module Shape.

(** White space is collapsed: every white space character is a space, and
    no white space character follows a space. *)
Fixpoint collapsed (s : text) : bool :=
  match s with
  | [] => true
  | c :: s' =>
      (if Char.is_space c
       then Ascii.eqb c " " &&
            match s' with
            | d :: _ => negb (Char.is_space d)
            | [] => true
            end
       else true) && collapsed s'
  end.

(** The text is empty or starts with a character that is not white
    space. *)
Definition starts_visible (s : text) : bool :=
  match s with
  | [] => true
  | c :: _ => negb (Char.is_space c)
  end.

(** Neither [--] nor [/*] stands in the text. *)
Fixpoint no_comment_marker (s : text) : bool :=
  match s with
  | c :: s' =>
      match s' with
      | d :: _ =>
          negb ((Ascii.eqb c "-" && Ascii.eqb d "-")
                || (Ascii.eqb c "/" && Ascii.eqb d "*"))
      | [] => true
      end && no_comment_marker s'
  | [] => true
  end.

(** The text starts with CREATE, in upper or lower case. *)
Definition starts_with_create (s : text) : bool :=
  Str.startswith (str "CREATE") (Str.upper s).

(** A character of the kind in a descriptor: a word character that is no
    upper case letter. *)
Definition kind_char (c : ascii) : bool :=
  Char.is_word c && negb (Char.is_upper c).

(** A character of the name in a descriptor: no white space, parenthesis,
    quote or dot. *)
Definition plain_name_char (c : ascii) : bool :=
  negb (Char.is_space c || Ascii.eqb c "(" || is_quote c || Ascii.eqb c ".").

(** The characters that are not white space. *)
Definition visible (s : text) : text := List.filter Syntax.not_space s.

(** The number of semicolons. *)
Definition count_semi (s : text) : nat := length (List.filter Syntax.is_semi s).

(** Neighbours are in the order of [Path.leb]. *)
Fixpoint sorted_paths (l : list path) : bool :=
  match l with
  | p :: l' =>
      match l' with
      | q :: _ => Path.leb p q
      | [] => true
      end && sorted_paths l'
  | [] => true
  end.

(** The path is an entry of the directory [d] itself. *)
Definition directly_in (d p : path) : Prop := exists name, p = Path.join d name.

(** The path is the directory [d] or something in it, at any depth. *)
Definition at_or_below (d p : path) : Prop := take (length d) p = d.

End Shape.

(** ** Properties of the matcher *)

Module Regex.

Lemma star_greedy_sound {A} p s (k : text -> option A) x :
  star_greedy p s k = Some x ->
  exists u v, s = u ++ v /\ forallb p u = true /\ k v = Some x.
Proof.
  induction s as [|c s IH]; simpl; intros H.
  - exists [], []. auto.
  - destruct (p c) eqn:Hp.
    + destruct (star_greedy p s k) eqn:Hs.
      * injection H as ->. destruct (IH eq_refl) as (u & v & -> & Hu & Hk).
        exists (c :: u), v. simpl. rewrite Hp, Hu. auto.
      * exists [], (c :: s). auto.
    + exists [], (c :: s). auto.
Qed.

Lemma star_lazy_sound {A} p s (k : text -> option A) x :
  star_lazy p s k = Some x ->
  exists u v, s = u ++ v /\ forallb p u = true /\ k v = Some x.
Proof.
  induction s as [|c s IH]; simpl; intros H.
  - destruct (k []) eqn:Hk; [|discriminate].
    exists [], []. injection H as ->. auto.
  - destruct (k (c :: s)) eqn:Hk.
    + injection H as ->. exists [], (c :: s). auto.
    + destruct (p c) eqn:Hp; [|discriminate].
      destruct (IH H) as (u & v & -> & Hu & Hk').
      exists (c :: u), v. simpl. rewrite Hp, Hu. auto.
Qed.

(** Soundness: a successful match splits the text into a part that the
    pattern matches and a rest that the continuation accepts. *)
Lemma rmatch_sound {A} r : forall s (k : text -> option A) x,
  rmatch r s k = Some x ->
  exists u v, s = u ++ v /\ Matches r u v /\ k v = Some x.
Proof.
  induction r as [|p|r1 IH1 r2 IH2|r1 IH1 r2 IH2|p|p|]; simpl; intros s k x H.
  - exists [], s. split; [reflexivity|]. split; [constructor|assumption].
  - destruct s as [|c s]; [discriminate|].
    destruct (p c) eqn:Hp; [|discriminate].
    exists [c], s. split; [reflexivity|]. split; [by constructor|assumption].
  - apply IH1 in H as (u1 & v1 & -> & M1 & H).
    apply IH2 in H as (u2 & v & -> & M2 & H).
    exists (u1 ++ u2), v. rewrite <- app_assoc. split; [reflexivity|].
    split; [by constructor|assumption].
  - destruct (rmatch r1 s k) eqn:H1.
    + injection H as ->. apply IH1 in H1 as (u & v & -> & M & H).
      exists u, v. split; [reflexivity|]. split; [by apply MAltL|assumption].
    + apply IH2 in H as (u & v & -> & M & H).
      exists u, v. split; [reflexivity|]. split; [by apply MAltR|assumption].
  - apply star_greedy_sound in H as (u & v & -> & Hu & H).
    exists u, v. split; [reflexivity|]. split; [by constructor|assumption].
  - apply star_lazy_sound in H as (u & v & -> & Hu & H).
    exists u, v. split; [reflexivity|]. split; [by constructor|assumption].
  - destruct (at_eol s) eqn:He; [|discriminate].
    exists [], s. split; [reflexivity|]. split; [by constructor|assumption].
Qed.






Lemma take_app_minus (u v : text) : take (length (u ++ v) - length v) (u ++ v) = u.
Proof.
  rewrite length_app. replace (length u + length v - length v)%nat with (length u) by lia.
  by rewrite take_app_length.
Qed.

Lemma prefix_match_sound r s m rest :
  prefix_match r s = Some (m, rest) -> s = m ++ rest /\ Matches r m rest.
Proof.
  unfold prefix_match. destruct (rmatch r s Some) as [rest'|] eqn:H; [|discriminate].
  apply rmatch_sound in H as (u & v & -> & M & Hk). injection Hk as ->.
  rewrite take_app_minus. intros [= <- <-]. auto.
Qed.


End Regex.

(** ** Properties read off the syntax of a pattern *)

Module SyntaxFacts.
Import Syntax.

Lemma in_all_ascii c : In c all_ascii.
Proof.
  unfold all_ascii. rewrite <- (ascii_nat_embedding c).
  apply in_map, in_seq. pose proof (nat_ascii_bounded c). lia.
Qed.

Lemma cls_sub_spec p q c : cls_sub p q = true -> p c = true -> q c = true.
Proof.
  unfold cls_sub. rewrite forallb_forall. intros H Hp.
  specialize (H c (in_all_ascii c)). rewrite Hp in H. exact H.
Qed.

Lemma forallb_sub p q (u : text) :
  cls_sub p q = true -> forallb p u = true -> forallb q u = true.
Proof.
  intros Hs. rewrite !forallb_forall. intros H c Hc.
  eapply cls_sub_spec; eauto.
Qed.

Lemma all_chars_spec q r u v :
  all_chars q r = true -> Matches r u v -> forallb q u = true.
Proof.
  intros Hr M.
  matches_induction M; cbn [all_chars] in Hr.
  - reflexivity.
  - simpl. rewrite (cls_sub_spec _ _ _ Hr Hp). reflexivity.
  - apply andb_prop in Hr as [H1 H2]. rewrite forallb_app, IH1, IH2; auto.
  - apply andb_prop in Hr as [H1 H2]. auto.
  - apply andb_prop in Hr as [H1 H2]. auto.
  - eapply forallb_sub; eauto.
  - eapply forallb_sub; eauto.
  - reflexivity.
Qed.

Lemma nonempty_spec r u v : nonempty r = true -> Matches r u v -> u <> [].
Proof.
  intros Hr M.
  matches_induction M;
    cbn [nonempty] in Hr; try discriminate.
  - apply orb_prop in Hr as [Hr|Hr].
    + intros E. apply app_eq_nil in E as [E _]. by apply IH1.
    + intros E. apply app_eq_nil in E as [_ E]. by apply IH2.
  - apply andb_prop in Hr as [Hr _]. auto.
  - apply andb_prop in Hr as [_ Hr]. auto.
Qed.


(** A match of a semicolon-terminated pattern is a text without semicolon
    followed by one semicolon. *)
Lemma semi_terminated_spec r u v :
  semi_terminated r = true -> Matches r u v ->
  exists w, u = w ++ [";"] /\ forallb not_semi w = true.
Proof.
  intros Hr M.
  matches_induction M;
    cbn [semi_terminated] in Hr; try discriminate.
  - exists []. split; [|reflexivity].
    pose proof (cls_sub_spec _ _ _ Hr Hp) as Hc. apply Ascii.eqb_eq in Hc.
    by subst.
  - apply andb_prop in Hr as [Hr H2]. apply andb_prop in Hr as [H1 _].
    destruct (IH2 H2) as (w & -> & Hw). exists (u1 ++ w).
    split; [by rewrite app_assoc|].
    rewrite forallb_app, Hw, (all_chars_spec _ _ _ _ H1 M1). reflexivity.
Qed.






End SyntaxFacts.

(** ** The scan of [finditer] and [sub] *)

Module Scan.







End Scan.

(** ** The patterns of the script *)

Module Patterns.
Import Syntax SyntaxFacts.

Lemma all_semi_terminated : forallb semi_terminated DDL_PATTERNS = true.
Proof. vm_compute. reflexivity. Qed.

Lemma semi_terminated_in r : In r DDL_PATTERNS -> semi_terminated r = true.
Proof.
  intros H. pose proof all_semi_terminated as A.
  rewrite forallb_forall in A. auto.
Qed.

(** No pattern that the script hands to [re.findall] or [re.sub] matches the
    empty text. *)
Lemma patterns_never_empty r u v :
  In r (DDL_PATTERNS ++ [LINE_COMMENT; BLOCK_COMMENT; ws; CREATE_PREFIX;
                         Cls is_quote; Cls is_invalid_char]) ->
  Matches r u v -> u <> [].
Proof.
  intros H. apply nonempty_spec.
  assert (A : forallb nonempty
                (DDL_PATTERNS ++ [LINE_COMMENT; BLOCK_COMMENT; ws; CREATE_PREFIX;
                                  Cls is_quote; Cls is_invalid_char]) = true)
    by (vm_compute; reflexivity).
  rewrite forallb_forall in A. auto.
Qed.

Lemma fold_extend {A B} (f : B -> list A) (l : list B) (acc : list A) :
  fold_left (fun all x => all ++ f x) l acc = acc ++ concat (map f l).
Proof.
  revert acc. induction l as [|x l IH]; intros acc; simpl.
  - by rewrite app_nil_r.
  - rewrite IH. by rewrite app_assoc.
Qed.

Lemma pattern_statements_concat content :
  pattern_statements content =
  concat (map (fun pattern => findall pattern content) DDL_PATTERNS).
Proof. unfold pattern_statements. by rewrite fold_extend. Qed.

End Patterns.

(** ** Document order of the matches of one pattern *)

Module Order.
Import Spec.

Lemma occurs_at_app (pre m rest : text) :
  occurs_at (pre ++ m ++ rest) (length pre) m.
Proof.
  unfold occurs_at. rewrite drop_app_length. by rewrite take_app_length.
Qed.

Lemma scanned_weaken s lo lo' l : (lo' <= lo)%nat -> scanned s lo l -> scanned s lo' l.
Proof. destruct l as [|[off m] l]; simpl; [auto|]. intros ? (? & ? & ?). repeat split; auto; lia. Qed.

Lemma finditer_scanned r : forall n pre s,
  (length s < n)%nat ->
  scanned (pre ++ s) (length pre) (finditer_from n r (length pre) s).
Proof.
  induction n as [|n IH]; intros pre s Hn; [lia|].
  cbn [finditer_from]. destruct (prefix_match r s) as [[m rest]|] eqn:Hm.
  - apply Regex.prefix_match_sound in Hm as [-> _].
    cbn [scanned]. split; [lia|]. split; [apply occurs_at_app|].
    destruct m as [|c m].
    + destruct rest as [|c rest]; [exact I|]. cbn [app length] in *.
      replace (pre ++ c :: rest) with ((pre ++ [c]) ++ rest) by (by rewrite <- app_assoc).
      replace (S (length pre)) with (length (pre ++ [c])) by (rewrite length_app; simpl; lia).
      eapply scanned_weaken; [|apply IH; lia]. rewrite length_app. simpl. lia.
    + rewrite length_app in Hn. cbn [length] in Hn.
      replace (pre ++ (c :: m) ++ rest) with ((pre ++ c :: m) ++ rest) by (by rewrite <- app_assoc).
      replace (length pre + length (c :: m))%nat with (length (pre ++ c :: m))
        by (by rewrite length_app).
      eapply scanned_weaken; [|apply IH; lia]. rewrite length_app. simpl. lia.
  - destruct s as [|c s]; [exact I|]. cbn [length] in Hn.
    replace (pre ++ c :: s) with ((pre ++ [c]) ++ s) by (by rewrite <- app_assoc).
    replace (S (length pre)) with (length (pre ++ [c])) by (rewrite length_app; simpl; lia).
    eapply scanned_weaken; [|apply IH; lia]. rewrite length_app. simpl. lia.
Qed.

Lemma scanned_lookup s : forall l lo i off m,
  scanned s lo l -> l !! i = Some (off, m) -> (lo <= off)%nat /\ occurs_at s off m.
Proof.
  induction l as [|[o x] l IH]; intros lo i off m H Hi; [discriminate|].
  destruct H as (H1 & H2 & H3). destruct i as [|i].
  - injection Hi as -> ->. auto.
  - simpl in Hi. destruct (IH _ _ _ _ H3 Hi) as [? ?]. split; [lia|auto].
Qed.

Lemma scanned_pairs s : forall l lo i j oi mi oj mj,
  scanned s lo l -> (i < j)%nat ->
  l !! i = Some (oi, mi) -> l !! j = Some (oj, mj) ->
  (oi < oj)%nat /\ (oi + length mi <= oj)%nat.
Proof.
  induction l as [|[o x] l IH]; intros lo i j oi mi oj mj H Hij Hi Hj; [discriminate|].
  destruct H as (H1 & H2 & H3). destruct j as [|j]; [lia|]. simpl in Hj.
  destruct i as [|i].
  - injection Hi as -> ->.
    destruct (scanned_lookup _ _ _ _ _ _ H3 Hj) as [H _].
    apply Nat.max_lub_iff in H as [? ?]. split; [lia|assumption].
  - simpl in Hi. apply (IH _ i j oi mi oj mj H3); [lia|assumption|assumption].
Qed.

End Order.

(** ** Statements between semicolons *)

Module Boundary.
Import Syntax SyntaxFacts Spec.









End Boundary.

(** ** Trimming *)

Module Text.

Lemma lstrip_snoc w c :
  Char.is_space c = false -> Str.lstrip (w ++ [c]) = Str.lstrip w ++ [c].
Proof.
  intros Hc. induction w as [|d w IH]; simpl.
  - by rewrite Hc.
  - destruct (Char.is_space d); [assumption|reflexivity].
Qed.

Lemma rstrip_snoc w c :
  Char.is_space c = false -> Str.rstrip (w ++ [c]) = w ++ [c].
Proof.
  intros Hc. unfold Str.rstrip. rewrite rev_app_distr. simpl. rewrite Hc.
  simpl. by rewrite rev_involutive.
Qed.

Lemma strip_snoc w c :
  Char.is_space c = false -> Str.strip (w ++ [c]) = Str.lstrip w ++ [c].
Proof.
  intros Hc. unfold Str.strip. rewrite lstrip_snoc by assumption.
  by apply rstrip_snoc.
Qed.

Lemma strip_semi w : Str.strip (w ++ [";"]) = Str.lstrip w ++ [";"].
Proof. by apply strip_snoc. Qed.

End Text.

(** ** The statements that are found *)

Module Found.
Import Syntax SyntaxFacts Spec.

Lemma finditer_Matches r : forall n off s o m,
  In (o, m) (finditer_from n r off s) -> exists v, Matches r m v.
Proof.
  induction n as [|n IH]; intros off s o m H; [destruct H|].
  cbn [finditer_from] in H.
  destruct (prefix_match r s) as [[x rest]|] eqn:Hx.
  - destruct H as [H|H].
    + injection H as -> ->. apply Regex.prefix_match_sound in Hx as [_ M]. eauto.
    + destruct x; [destruct s; [destruct H|]|]; eauto.
  - destruct s; [destruct H|]. eauto.
Qed.

Lemma findall_Matches r s m : In m (findall r s) -> exists v, Matches r m v.
Proof.
  unfold findall. rewrite in_map_iff. intros [[o x] [<- H]].
  eapply finditer_Matches. exact H.
Qed.

(** A statement found by a pattern ends with a semicolon, the only one in
    it. *)
Lemma pattern_statement_shape content stmt :
  In stmt (pattern_statements content) ->
  exists w, stmt = w ++ [";"] /\ forallb not_semi w = true.
Proof.
  rewrite Patterns.pattern_statements_concat, in_concat.
  intros (l & Hl & Hs). apply in_map_iff in Hl as (r & <- & Hr).
  apply findall_Matches in Hs as [v M].
  eapply semi_terminated_spec; [|eassumption]. by apply Patterns.semi_terminated_in.
Qed.

Lemma fallback_statement_shape content stmt :
  In stmt (fallback_statements content) ->
  exists seg, In seg (Str.split ";" content) /\ stmt = Str.strip seg ++ [";"].
Proof.
  unfold fallback_statements. rewrite in_map_iff.
  intros (seg & <- & H). apply filter_In in H as [H _]. eauto.
Qed.

Lemma all_statements_cases content :
  (pattern_statements content <> [] /\
   all_statements content = pattern_statements content) \/
  (pattern_statements content = [] /\
   all_statements content = fallback_statements content).
Proof.
  unfold all_statements. destruct (pattern_statements content); [right|left]; auto.
Qed.

(** Every statement of [all_statements] ends with a semicolon. *)
Lemma statement_ends_with_semi content stmt :
  In stmt (all_statements content) -> ends_with_semi stmt.
Proof.
  destruct (all_statements_cases content) as [[_ ->]|[_ ->]]; intros H.
  - apply pattern_statement_shape in H as (w & -> & _). by exists w.
  - apply fallback_statement_shape in H as (seg & _ & ->). by eexists.
Qed.

Lemma strip_ends_with_semi stmt :
  ends_with_semi stmt -> ends_with_semi (Str.strip stmt) /\ Str.strip stmt <> [].
Proof.
  intros [w ->]. rewrite Text.strip_semi. split; [by eexists|].
  by destruct (Str.lstrip w).
Qed.

End Found.

(** ** The loop that writes the files *)

Module Loop.
Import Spec.

Lemma is_dir_insert_file fs p d q :
  Path.is_dir fs p = false ->
  Path.is_dir (<[p := File d]> fs) q = Path.is_dir fs q.
Proof.
  intros Hp. unfold Path.is_dir in *. destruct q as [|c q]; [reflexivity|].
  destruct (decide (p = c :: q)) as [->|Hne].
  - rewrite lookup_insert_eq. exact (eq_sym Hp).
  - by rewrite lookup_insert_ne.
Qed.

Lemma written_ext e fs fs' stem out i stmts :
  (forall q, Path.is_dir fs' q = Path.is_dir fs q) ->
  written e fs' stem out i stmts = written e fs stem out i stmts.
Proof.
  intros H. unfold written. apply filter_ext. intros ns. by rewrite H.
Qed.

(** The loop writes the files of [written], in their order, and counts
    them. *)
Lemma write_statements_spec e stem out : forall stmts i fs n,
  write_statements e stem out i stmts (fs, n) =
  (apply_writes fs (map (output_of e stem out) (written e fs stem out i stmts)),
   (n + length (written e fs stem out i stmts))%nat).
Proof.
  induction stmts as [|st stmts IH]; intros i fs n.
  - simpl. by rewrite Nat.add_0_r.
  - cbn [write_statements]. unfold written. cbn [enumerate List.filter].
    fold (written e fs stem out (S i) stmts).
    cbn [fst snd]. destruct (Str.strip st) as [|c t] eqn:Hst.
    + rewrite bool_decide_eq_true_2 by reflexivity. cbn [negb andb].
      apply IH.
    + rewrite bool_decide_eq_false_2 by discriminate. cbn [negb andb].
      unfold write_file, target. cbn [fst snd].
      destruct (Path.is_dir fs _) eqn:Hd; cbn [negb andb]; [apply IH|].
      destruct (open_ok e _) eqn:Ho; [|apply IH].
      rewrite IH.
      rewrite (written_ext e fs (<[_ := _]> fs))
        by (intros q; by apply is_dir_insert_file).
      cbn [map length apply_writes fold_left output_of fst snd].
      unfold target. cbn [fst snd]. rewrite Hst. f_equal. lia.
Qed.

End Loop.

(** ** File names *)

Module Names.
Import Spec.

(** Two texts that consist of a run of one class, a character outside the
    class and a rest are equal only if their parts are. *)
Lemma run_unique (p : ascii -> bool) (c1 c2 : ascii) (w1 w2 r1 r2 : text) :
  forallb p w1 = true -> forallb p w2 = true -> p c1 = false -> p c2 = false ->
  w1 ++ c1 :: r1 = w2 ++ c2 :: r2 -> w1 = w2.
Proof.
  intros H1 H2 Hc1 Hc2. revert w2 H2.
  induction w1 as [|a w1 IH]; intros [|b w2] H2 E; simpl in *.
  - reflexivity.
  - injection E as -> _. apply andb_prop in H2 as [H2 _]. congruence.
  - injection E as -> _. apply andb_prop in H1 as [H1 _]. congruence.
  - injection E as -> E. apply andb_prop in H1 as [_ H1].
    apply andb_prop in H2 as [_ H2]. f_equal. by apply IH.
Qed.

Lemma digits_of_uint d :
  forallb Char.is_digit (str (NilEmpty.string_of_uint d)) = true.
Proof. induction d; simpl; auto. Qed.

Lemma digits_of_nat n : forallb Char.is_digit (Str.of_nat n) = true.
Proof. apply digits_of_uint. Qed.

Lemma forallb_repeat (p : ascii -> bool) c k :
  p c = true -> forallb p (repeat c k) = true.
Proof. intros H. induction k; simpl; [reflexivity|]. by rewrite H. Qed.

Lemma digits_pad4 n : forallb Char.is_digit (Str.pad4 n) = true.
Proof.
  unfold Str.pad4. rewrite forallb_app, digits_of_nat.
  rewrite forallb_repeat; reflexivity.
Qed.

Lemma value_of_nat n : decimal_value (Str.of_nat n) = Some n.
Proof.
  unfold decimal_value, Str.of_nat, str.
  rewrite string_of_list_ascii_of_string, NilEmpty.usu. simpl.
  by rewrite Unsigned.of_to.
Qed.

Lemma value_zero s : decimal_value ("0" :: s) = decimal_value s.
Proof.
  unfold decimal_value. simpl.
  destruct (NilEmpty.uint_of_string (string_of_list_ascii s)); reflexivity.
Qed.

Lemma value_pad4 n : decimal_value (Str.pad4 n) = Some n.
Proof.
  unfold Str.pad4. induction (4 - length (Str.of_nat n))%nat as [|k IH]; simpl.
  - apply value_of_nat.
  - by rewrite value_zero.
Qed.

Lemma pad4_inj n m : Str.pad4 n = Str.pad4 m -> n = m.
Proof.
  intros H. apply (f_equal decimal_value) in H.
  rewrite !value_pad4 in H. by injection H.
Qed.

(** The ordinal can be read off a file name: names with different ordinals
    differ, whatever the statements are. *)
Lemma statement_filename_ordinal e stem i j si sj :
  statement_filename e stem i si = statement_filename e stem j sj -> i = j.
Proof.
  unfold statement_filename. intros H.
  apply app_inv_head in H. simpl in H. injection H as H.
  apply pad4_inj.
  eapply (run_unique Char.is_digit "_" "_"); [apply digits_pad4 ..| | |exact H];
    reflexivity.
Qed.

Lemma target_ordinal e stem out x y :
  target e stem out x = target e stem out y -> fst x = fst y.
Proof.
  unfold target, Path.join. intros H. apply app_inv_head in H.
  injection H as H. by apply statement_filename_ordinal in H.
Qed.

Lemma enumerate_fst i l : map fst (enumerate i l) = seq i (length l).
Proof. revert i. induction l as [|x l IH]; intros i; simpl; [reflexivity|]. by rewrite IH. Qed.


Lemma NoDup_map_on {A B} (f : A -> B) (g : A -> nat) (l : list A) :
  (forall x y, f x = f y -> g x = g y) -> List.NoDup (map g l) -> List.NoDup (map f l).
Proof.
  intros Hf. induction l as [|x l IH]; simpl; intros H; [constructor|].
  inversion H as [|? ? Hx Hl]; subst. constructor; [|by apply IH].
  intros Hin. apply Hx. apply in_map_iff in Hin as (y & E & Hy).
  apply in_map_iff. exists y. split; [|assumption]. by apply Hf.
Qed.

Lemma NoDup_filter_map {A B} (f : A -> B) (p : A -> bool) (l : list A) :
  List.NoDup (map f l) -> List.NoDup (map f (List.filter p l)).
Proof.
  induction l as [|x l IH]; simpl; intros H; [constructor|].
  inversion H as [|? ? Hx Hl]; subst.
  destruct (p x); simpl; [|by apply IH].
  constructor; [|by apply IH].
  intros Hin. apply Hx. apply in_map_iff in Hin as (y & E & Hy).
  apply filter_In in Hy as [Hy _]. apply in_map_iff. eauto.
Qed.

(** The files that the loop opens are pairwise different. *)
Lemma targets_NoDup e stem out i stmts :
  List.NoDup (map (target e stem out) (enumerate i stmts)).
Proof.
  apply (NoDup_map_on _ fst); [apply target_ordinal|].
  rewrite enumerate_fst. apply List.seq_NoDup.
Qed.

Lemma written_NoDup e fs stem out i stmts :
  List.NoDup (map (target e stem out) (written e fs stem out i stmts)).
Proof. apply NoDup_filter_map, targets_NoDup. Qed.

End Names.

(** ** Writes and directories *)

Module Files.
Import Spec.

Lemma apply_writes_other (ws : list (path * text)) : forall fs p,
  ~ In p (map fst ws) -> apply_writes fs ws !! p = fs !! p.
Proof.
  induction ws as [|[q d] ws IH]; intros fs p Hp; [reflexivity|].
  simpl in *. rewrite IH by tauto. apply lookup_insert_ne. tauto.
Qed.

Lemma apply_writes_lookup (ws : list (path * text)) : forall fs p d,
  List.NoDup (map fst ws) -> In (p, d) ws ->
  apply_writes fs ws !! p = Some (File d).
Proof.
  induction ws as [|[q x] ws IH]; intros fs p d Hnd Hin; [destruct Hin|].
  simpl in *. inversion Hnd as [|? ? Hq Hnd']; subst.
  destruct Hin as [[= -> ->]|Hin].
  - rewrite apply_writes_other by assumption. apply lookup_insert_eq.
  - by apply IH.
Qed.




(** *** [mkdir] *)

Lemma dirs_there_cons fs done c todo :
  dirs_there fs done (c :: todo) <->
  fs !! (done ++ [c]) = Some Dir /\ dirs_there fs (done ++ [c]) todo.
Proof.
  unfold dirs_there. split.
  - intros H. split.
    + apply (H 1%nat). simpl. lia.
    + intros k Hk. rewrite <- app_assoc. apply (H (S k)). simpl. lia.
  - intros [H1 H2] k Hk. destruct k as [|k]; [lia|]. simpl.
    destruct k as [|k].
    + by rewrite take_0.
    + specialize (H2 (S k)). rewrite <- app_assoc in H2. apply H2.
      simpl in Hk. lia.
Qed.


Lemma mkdir_from_spec : forall todo fs done fs',
  Path.mkdir_from fs done todo = Some fs' ->
  dirs_there fs' done todo /\
  (forall q c, fs' !! q = Some (File c) <-> fs !! q = Some (File c)) /\
  (forall q, fs !! q = Some Dir -> fs' !! q = Some Dir).
Proof.
  induction todo as [|c todo IH]; intros fs done fs' H.
  - injection H as <-. split; [|split]; [|tauto|tauto].
    intros k Hk. simpl in Hk. lia.
  - simpl in H. destruct (Path.is_file fs (done ++ [c])) eqn:Hf; [discriminate|].
    apply IH in H as (H1 & H2 & H3).
    assert (Hd : fs' !! (done ++ [c]) = Some Dir) by (apply H3, lookup_insert_eq).
    split; [|split].
    + apply dirs_there_cons. auto.
    + intros q x. rewrite H2. destruct (decide (done ++ [c] = q)) as [<-|Hne].
      * rewrite lookup_insert_eq. unfold Path.is_file in Hf.
        split; [discriminate|]. intros E. by rewrite E in Hf.
      * by rewrite lookup_insert_ne.
    + intros q Hq. apply H3. destruct (decide (done ++ [c] = q)) as [<-|Hne].
      * apply lookup_insert_eq.
      * by rewrite lookup_insert_ne.
Qed.


End Files.

(** ** The input file is not among the files written *)

Module Stem.
Import Spec.

Lemma rfind_dot_spec name : forall i,
  Path.rfind_dot name = Some i ->
  exists a b, name = a ++ "." :: b /\ length a = i.
Proof.
  induction name as [|c name IH]; intros i H; [discriminate|].
  simpl in H. destruct (Path.rfind_dot name) as [j|].
  - injection H as <-. destruct (IH j eq_refl) as (a & b & -> & <-).
    by exists (c :: a), b.
  - destruct (Ascii.eqb c ".") eqn:Hc; [|discriminate].
    apply Ascii.eqb_eq in Hc as ->. injection H as <-. by exists [], name.
Qed.

(** The name is the stem followed by the suffix, which is empty or starts
    with a dot. *)
Lemma name_stem p :
  exists sfx, Path.name p = Path.stem p ++ sfx /\ (sfx = [] \/ exists b, sfx = "." :: b).
Proof.
  unfold Path.stem. destruct (Path.rfind_dot (Path.name p)) as [i|] eqn:Hi.
  - destruct (_ && _).
    + apply rfind_dot_spec in Hi as (a & b & E & <-).
      exists ("." :: b). rewrite E. rewrite take_app_length. eauto.
    + exists []. rewrite app_nil_r. auto.
  - exists []. rewrite app_nil_r. auto.
Qed.

Lemma target_not_input e input out ns :
  target e (Path.stem input) out ns <> input.
Proof.
  unfold target, Path.join, statement_filename. intros H.
  destruct (name_stem input) as (sfx & E & Hs).
  rewrite <- H in E at 1. unfold Path.name in E. rewrite last_last in E.
  apply app_inv_head in E. destruct Hs as [->|[b ->]]; discriminate.
Qed.

End Stem.

(** ** Running the splitter again *)

Module Rerun.
Import Spec.

Lemma enumerate_In i l ns : In ns (enumerate i l) -> In (snd ns) l.
Proof.
  revert i. induction l as [|x l IH]; intros i; simpl; [tauto|].
  intros [<-|H]; [by left|right; eauto].
Qed.





Lemma outputs_targets e stem out (l : list (nat * text)) :
  map fst (map (output_of e stem out) l) = map (target e stem out) l.
Proof. by rewrite map_map. Qed.

End Rerun.

(** ** Replacing the characters of a class *)

Module Sanitize.
Import Spec.

Lemma prefix_match_cls p c s :
  prefix_match (Cls p) (c :: s) = if p c then Some ([c], s) else None.
Proof.
  unfold prefix_match. cbn [rmatch]. destruct (p c); [|reflexivity].
  cbn [length]. replace (S (length s) - length s)%nat with 1%nat by lia.
  reflexivity.
Qed.

Lemma sub_from_cls p repl : forall n s,
  (length s < n)%nat ->
  sub_from n (Cls p) repl s = concat (map (fun c => if p c then repl else [c]) s).
Proof.
  induction n as [|n IH]; intros s Hn; [lia|].
  destruct s as [|c s]; [reflexivity|].
  cbn [sub_from]. rewrite prefix_match_cls. cbn [length] in Hn.
  destruct (p c) eqn:Hp; cbn [map concat]; rewrite Hp, IH by lia; reflexivity.
Qed.

Lemma sub_cls_char p r s :
  sub (Cls p) [r] s = map (fun c => if p c then r else c) s.
Proof.
  unfold sub. rewrite sub_from_cls by lia.
  induction s as [|c s IH]; [reflexivity|]. simpl. rewrite IH.
  by destruct (p c).
Qed.

(** [_sanitize_filename] replaces every character of its class by an
    underscore and keeps the first 200 characters. *)
Lemma sanitize_eq filename :
  _sanitize_filename filename = take 200 (map replace_invalid filename).
Proof.
  unfold _sanitize_filename. change (str "_") with ["_"].
  rewrite sub_cls_char. fold replace_invalid.
  destruct (200 <? length (map replace_invalid filename))%nat eqn:H; [reflexivity|].
  apply Nat.ltb_ge in H. by rewrite take_ge.
Qed.

Lemma replace_invalid_valid c : is_invalid_char (replace_invalid c) = false.
Proof.
  unfold replace_invalid. destruct (is_invalid_char c) eqn:H; [reflexivity|exact H].
Qed.

Lemma sanitize_valid filename :
  forallb (fun c => negb (is_invalid_char c)) (_sanitize_filename filename) = true.
Proof.
  rewrite sanitize_eq. apply forallb_forall. intros c Hc.
  apply list_elem_of_In, elem_of_take in Hc as (i & Hc & _).
  apply list_lookup_fmap_Some in Hc as (d & -> & _).
  by rewrite replace_invalid_valid.
Qed.

End Sanitize.

(** ** Counting *)

Module Count.
Import Spec.




Lemma insert_sorted_In p q l : In q (Path.insert_sorted p l) <-> q = p \/ In q l.
Proof.
  induction l as [|x l IH]; simpl; [intuition|].
  destruct (Path.leb p x); simpl; [intuition|]. rewrite IH. intuition.
Qed.

Lemma sorted_In q l : In q (Path.sorted l) <-> In q l.
Proof.
  induction l as [|x l IH]; simpl; [tauto|].
  rewrite insert_sorted_In, IH. intuition.
Qed.

Lemma find_ddl_files_suffix fs directory :
  Forall (fun f => Path.suffix f ∈ sql_extensions /\ Path.is_file fs f = true)
         (_find_ddl_files fs directory).
Proof.
  apply List.Forall_forall. intros f Hf. unfold _find_ddl_files in Hf.
  apply sorted_In, filter_In in Hf as [Hf Hs].
  apply bool_decide_eq_true in Hs. split; [assumption|].
  unfold Path.rglob_files in Hf. apply filter_In in Hf as [_ Hf].
  by apply andb_prop in Hf as [_ Hf].
Qed.

(** Where every file of the output directory can be written, a file is
    written for every statement that is not empty when trimmed. *)
Lemma all_written e fs stem out : forall stmts i,
  all_writable e fs out ->
  Forall (fun s => Str.strip s <> []) stmts ->
  written e fs stem out i stmts = enumerate i stmts.
Proof.
  intros stmts i Hw Hs. unfold written.
  rewrite (filter_ext_in _ (fun _ => true)).
  - clear. induction (enumerate i stmts) as [|x l IH]; simpl; [|rewrite IH]; reflexivity.
  - intros ns Hin. apply Rerun.enumerate_In in Hin.
    rewrite List.Forall_forall in Hs. specialize (Hs _ Hin).
    rewrite bool_decide_eq_false_2 by assumption.
    unfold target.
    destruct (Hw (statement_filename e stem (fst ns) (snd ns))) as [-> ->].
    reflexivity.
Qed.

Lemma enumerate_length i l : length (enumerate i l) = length l.
Proof. revert i. induction l; intros i; simpl; auto. Qed.

End Count.

(** * The claims *)

Import Spec Demo.

(** C1.  The script [demo.sql] with a table and a view: the run creates
    [demo_split/] and exits with status 0, but it writes three files and
    reports three statements, because the view is found by the pattern for
    views and again by the pattern for materialized views. *)
Theorem demo_writes_three_files :
  let r := split_ddl demo_env demo_fs [str "demo.sql"] demo_out in
  demo_out = [str "demo_split"] /\
  snd r = Some (1%nat, 3%nat) /\
  Path.sorted (Path.rglob_files (fst r) demo_out) =
    [ [str "demo_split"; str "demo_0001_table_t1.sql"];
      [str "demo_split"; str "demo_0002_view_v1.sql"];
      [str "demo_split"; str "demo_0003_view_v1.sql"] ] /\
  Path.read (fst r) [str "demo_split"; str "demo_0001_table_t1.sql"]
    = Some (str "CREATE TABLE t1 (x INT);" ++ [Char.newline]) /\
  Path.read (fst r) [str "demo_split"; str "demo_0002_view_v1.sql"]
    = Some (str "CREATE VIEW v1 AS SELECT * FROM t1;" ++ [Char.newline]) /\
  Path.read (fst r) [str "demo_split"; str "demo_0003_view_v1.sql"]
    = Some (str "CREATE VIEW v1 AS SELECT * FROM t1;" ++ [Char.newline]) /\
  Cli.main demo_env demo_fs [str "ddl_splitter.py"; str "demo.sql"] []
           Cli.NoInterrupt = 0%Z.
Proof. vm_compute. repeat split; reflexivity. Qed.

(** C2, as the code has it.  The statements of a document are the matches
    of the patterns, pattern after pattern in the order of [DDL_PATTERNS],
    unless no pattern matches: then they are the statements of the fallback.
    The matches of one pattern stand in the document in the order in which
    they are listed, each after the end of the one before.  Statements of
    different kinds need not be in document order: a table declared after a
    view comes first. *)
Theorem statements_in_pattern_order (document : text) :
  let content := normalize document in
  all_statements content =
    match concat (map (fun pattern => findall pattern content) DDL_PATTERNS) with
    | [] => fallback_statements content
    | found => found
    end /\
  Forall (fun pattern =>
            findall pattern content = map snd (finditer pattern content) /\
            scanned content 0 (finditer pattern content)) DDL_PATTERNS /\
  all_statements (normalize view_then_table) =
    [str "CREATE TABLE t (x INT);"; str "CREATE VIEW v AS SELECT 1;";
     str "CREATE VIEW v AS SELECT 1;"].
Proof.
  intros content. split; [|split].
  - unfold all_statements. by rewrite Patterns.pattern_statements_concat.
  - apply List.Forall_forall. intros pattern _. split; [reflexivity|].
    apply (Order.finditer_scanned pattern (S (length content)) [] content). lia.
  - vm_compute. reflexivity.
Qed.

(** C2, as the claim has it, fails: for the document [CREATE FOO x;] no
    pattern matches, and the statements are not the (empty) concatenation
    of the matches but the statement of the fallback. *)
Lemma fallback_statements_are_no_matches :
  let content := normalize (str "CREATE FOO x;") in
  all_statements content
  <> concat (map (fun pattern => findall pattern content) DDL_PATTERNS).
Proof. vm_compute. discriminate. Qed.

(** C3, as the code has it.  For [CREATE TABLE "My.Schema"."Table 1" ...]
    the name ends at the first white space: the descriptor is
    [table_Table], with the schema dropped and the quotes stripped.
    [_sanitize_filename] then replaces every character of its class by an
    underscore, keeps at most 200 characters, and leaves no character of
    the class. *)
Theorem quoted_name_is_cut_at_the_space (e : env) (filename : text) :
  _extract_object_name e quoted_statement = str "table_Table" /\
  _extract_object_name e quoted_view = str "view_Table" /\
  _sanitize_filename filename = take 200 (map replace_invalid filename) /\
  forallb (fun c => negb (is_invalid_char c)) (_sanitize_filename filename) = true.
Proof.
  split; [vm_compute; reflexivity|]. split; [vm_compute; reflexivity|].
  split; [apply Sanitize.sanitize_eq|apply Sanitize.sanitize_valid].
Qed.

(** C3, as the claim has it, fails: the derived name is not [Table 1]. *)
Lemma quoted_name_is_not_kept :
  _extract_object_name demo_env quoted_statement <> str "table_Table 1".
Proof. vm_compute. discriminate. Qed.

(** C6.  The loop writes a file for the statements of [written] and for no
    other, and counts exactly these; a statement that is empty when trimmed
    is not among them.  Every statement found in a document ends, when
    trimmed, with a semicolon, and so does every text written (before the
    line feed that is added). *)
Theorem empty_statements_are_skipped (e : env) (fs : filesystem)
    (source_prefix : text) (output_dir : path) (i n : nat)
    (statements : list text) (document : text) :
  let w := written e fs source_prefix output_dir i statements in
  write_statements e source_prefix output_dir i statements (fs, n) =
    (apply_writes fs (map (output_of e source_prefix output_dir) w),
     (n + length w)%nat) /\
  Forall (fun ns => Str.strip (snd ns) <> []) w /\
  Forall (fun statement =>
            ends_with_semi (Str.strip statement) /\ Str.strip statement <> [])
         (all_statements (normalize document)).
Proof.
  intros w. split; [apply Loop.write_statements_spec|]. split.
  - apply List.Forall_forall. intros ns Hin. apply filter_In in Hin as [_ H].
    apply andb_prop in H as [H _]. apply andb_prop in H as [H _].
    apply negb_true_iff in H. by apply bool_decide_eq_false in H.
  - apply List.Forall_forall. intros s Hs.
    by apply Found.strip_ends_with_semi, (Found.statement_ends_with_semi (normalize document)).
Qed.

(** C7.  The names of the files that a run opens for the statements of a
    document are pairwise different, whatever the descriptors are: the
    ordinal can be read off the name.  The same holds for the files that
    are written. *)
Theorem output_names_are_distinct (e : env) (fs : filesystem)
    (source_prefix : text) (output_dir : path) (document : text) :
  let statements := all_statements (normalize document) in
  List.NoDup (map (fun ns => statement_filename e source_prefix (fst ns) (snd ns))
                  (enumerate 1 statements)) /\
  List.NoDup (map fst (map (output_of e source_prefix output_dir)
                           (written e fs source_prefix output_dir 1 statements))).
Proof.
  intros statements. split.
  - apply (Names.NoDup_map_on _ fst).
    + intros x y. apply Names.statement_filename_ordinal.
    + rewrite Names.enumerate_fst. apply List.seq_NoDup.
  - rewrite Rerun.outputs_targets. apply Names.written_NoDup.
Qed.

(** C8, as the code has it.  An interrupt while the files are split ends
    the process with status 1.  An interrupt in the interactive flow ends
    it with status 0: at the prompt for the input path, in the block around
    the prompts, and wherever a prompt ends the process. *)
Theorem interrupt_exit_status (e : env) (fs : filesystem) (prog a : text)
    (args : list text) (stdin : list Cli.stdin_event) :
  Cli.main e fs (prog :: a :: args) stdin Cli.WhileSplitting =
    (if bool_decide (a ∈ [str "--help"; str "-h"; str "help"]) then 0 else 1)%Z /\
  Cli.main e fs [prog] (Cli.CtrlC :: stdin) Cli.NoInterrupt = 0%Z /\
  Cli.main e fs [prog] stdin Cli.InInteractiveBlock = 0%Z /\
  match Cli.get_user_input fs stdin with
  | Cli.SysExit code => code = 0%Z
  | Cli.Answer _ _ => True
  end /\
  match Cli.get_output_directory stdin with
  | Cli.SysExit code => code = 0%Z
  | Cli.Answer _ _ => True
  end.
Proof.
  split; [|split; [reflexivity|split; [reflexivity|split]]].
  - cbn [Cli.main]. destruct (bool_decide _); [reflexivity|].
    unfold Cli.validate_and_split. by destruct (negb _).
  - induction stdin as [stdin IH] using (well_founded_induction
      (well_founded_ltof _ (@length Cli.stdin_event))).
    destruct stdin as [|[l|] stdin]; cbn [Cli.get_user_input]; try reflexivity.
    destruct (Str.strip l) as [|c t]; [apply IH; unfold ltof; simpl; lia|].
    destruct (negb _); [apply IH; unfold ltof; simpl; lia|].
    destruct (_ && _); [|exact I].
    destruct stdin as [|[response|] stdin]; try reflexivity.
    destruct (bool_decide _); [exact I|].
    apply IH. unfold ltof. simpl. lia.
  - destruct stdin as [|[l|] stdin]; cbn [Cli.get_output_directory]; try reflexivity.
    by destruct (Str.strip l).
Qed.

(** C8, as the claim has it, fails: an interrupt at the first prompt of the
    interactive flow ends the process with status 0. *)
Lemma interrupt_at_prompt_exits_zero :
  Cli.main demo_env demo_fs [str "ddl_splitter.py"] [Cli.CtrlC] Cli.NoInterrupt
  <> 1%Z.
Proof. vm_compute. discriminate. Qed.

(** C10.  An input path that is a regular file is split in single-file
    mode, whatever its name is; only for an input path that is not a file
    are the files chosen by [_find_ddl_files], all of which have one of the
    four extensions.  So [notes.txt] is split when it is the input path and
    passed over when its directory is. *)
Theorem regular_file_is_split_in_single_file_mode (e : env) (fs : filesystem)
    (input_path output_dir directory : path) (content : text) :
  fs !! input_path = Some (File content) ->
  Path.is_file fs directory = false ->
  split_ddl e fs input_path output_dir =
    (fst (split_single_file e fs input_path output_dir),
     option_map (fun r => (1%nat, snd r))
                (snd (split_single_file e fs input_path output_dir))) /\
  split_ddl e fs directory output_dir =
    match _find_ddl_files fs directory with
    | [] => (fs, Some (0%nat, 0%nat))
    | ddl_files =>
        let '(fs', files, statements) :=
          split_files e output_dir ddl_files (fs, 0%nat, 0%nat) in
        (fs', Some (files, statements))
    end /\
  Forall (fun f => Path.suffix f ∈ sql_extensions /\ Path.is_file fs f = true)
         (_find_ddl_files fs directory) /\
  snd (split_ddl demo_env folder_fs [str "in"; str "notes.txt"] [str "out"])
    = Some (1%nat, 1%nat) /\
  Path.read (fst (split_ddl demo_env folder_fs [str "in"; str "notes.txt"] [str "out"]))
            [str "out"; str "notes_0001_table_n.sql"]
    = Some (str "CREATE TABLE n (x INT);" ++ [Char.newline]) /\
  _find_ddl_files folder_fs [str "in"] = [[str "in"; str "a.sql"]] /\
  snd (split_ddl demo_env folder_fs [str "in"] [str "out"]) = Some (1%nat, 1%nat).
Proof.
  intros Hfile Hdir. split; [|split; [|split]].
  - unfold split_ddl, Path.is_file. rewrite Hfile.
    destruct (split_single_file e fs input_path output_dir) as [fs' [[t k]|]];
      reflexivity.
  - unfold split_ddl. by rewrite Hdir.
  - apply Count.find_ddl_files_suffix.
  - vm_compute. repeat split; reflexivity.
Qed.

Lemma regular_file_is_split_in_single_file_mode_witness :
  snd (split_ddl demo_env folder_fs [str "in"; str "notes.txt"] [str "out"])
    = Some (1%nat, 1%nat).
Proof.
  apply (regular_file_is_split_in_single_file_mode demo_env folder_fs
           [str "in"; str "notes.txt"] [str "out"] [str "in"]
           (str "CREATE TABLE n (x INT);")).
  - vm_compute. reflexivity.
  - vm_compute. reflexivity.
Defined.





(** C5.  Where no pattern matches, the statements are the fragments of the
    split on [;] that start with CREATE when trimmed and put in upper case,
    each trimmed and closed with a semicolon; where the files of the output
    directory can be written, the run writes one file for each of these
    fragments, under pairwise different names, and counts them all. *)
Theorem fallback_writes_one_file_per_fragment (e : env) (fs D : filesystem)
    (input_file output_dir : path) (document : text) :
  Path.mkdir fs output_dir = Some D ->
  Path.read D input_file = Some document ->
  pattern_statements (normalize document) = [] ->
  all_writable e D output_dir ->
  let fragments :=
    List.filter (fun stmt => Str.startswith (str "CREATE") (Str.upper (Str.strip stmt)))
                (Str.split ";" (normalize document)) in
  let statements := map (fun stmt => Str.strip stmt ++ str ";") fragments in
  let outputs :=
    map (output_of e (Path.stem input_file) output_dir) (enumerate 1 statements) in
  all_statements (normalize document) = statements /\
  split_single_file e fs input_file output_dir =
    (apply_writes D outputs, Some (length fragments, length fragments)) /\
  length outputs = length fragments /\
  List.NoDup (map fst outputs) /\
  Forall (fun pd => apply_writes D outputs !! fst pd = Some (File (snd pd))) outputs.
Proof.
  intros Hmk Hr Hp Hw fragments statements outputs.
  assert (Hall : all_statements (normalize document) = statements).
  { unfold all_statements. by rewrite Hp. }
  assert (Hne : Forall (fun s => Str.strip s <> []) statements).
  { apply List.Forall_forall. intros s Hs. apply in_map_iff in Hs as (seg & <- & _).
    apply Found.strip_ends_with_semi. by eexists. }
  assert (Hnd : List.NoDup (map fst outputs)).
  { unfold outputs. rewrite Rerun.outputs_targets. apply Names.targets_NoDup. }
  assert (Hlen : length outputs = length fragments).
  { unfold outputs, statements. by rewrite !length_map, Count.enumerate_length, length_map. }
  split; [exact Hall|]. split; [|split; [exact Hlen|split; [exact Hnd|]]].
  - unfold split_single_file. rewrite Hmk, Hr, Hall.
    rewrite Loop.write_statements_spec.
    rewrite Count.all_written by assumption. fold outputs.
    rewrite Count.enumerate_length. unfold statements. by rewrite !length_map.
  - apply List.Forall_forall. intros [p d] Hin.
    by apply Files.apply_writes_lookup.
Qed.

Lemma demo_split_writable (fs : filesystem) (h : Z) :
  (forall name, fs !! [str "demo_split"; name] = None) ->
  all_writable (env_with_hash h) (<[[str "demo_split"] := Dir]> fs) [str "demo_split"].
Proof.
  intros Hfs name. split; [|reflexivity].
  unfold Path.is_dir, Path.join. cbn [app].
  rewrite lookup_insert_ne by discriminate. by rewrite Hfs.
Qed.

Lemma fallback_writes_one_file_per_fragment_witness :
  all_statements (normalize fallback_text) = [str "CREATE FOO a;"; str "create bar b;"] /\
  snd (split_single_file demo_env fallback_fs [str "demo.sql"] [str "demo_split"])
    = Some (2%nat, 2%nat).
Proof.
  destruct (fallback_writes_one_file_per_fragment demo_env fallback_fs
              (<[[str "demo_split"] := Dir]> fallback_fs)
              [str "demo.sql"] [str "demo_split"] fallback_text)
    as (H1 & H2 & _).
  - reflexivity.
  - reflexivity.
  - vm_compute. reflexivity.
  - apply demo_split_writable. intros name.
    unfold fallback_fs. apply lookup_singleton_ne. discriminate.
  - split.
    + rewrite H1. vm_compute. reflexivity.
    + rewrite H2. vm_compute. reflexivity.
Defined.

(** ** The two patterns for views *)

Module Views.
Import Syntax SyntaxFacts.







End Views.



(** * Further properties of the script *)

(** ** [_read_file_chunks] *)

Module ChunkFacts.
Import Chunks.





End ChunkFacts.



(** ** The scan of [re.sub] *)

Module SubFacts.
Import Shape.

Lemma sub_from_fuels r repl : forall n m s,
  (length s < n)%nat -> (length s < m)%nat ->
  sub_from n r repl s = sub_from m r repl s.
Proof.
  induction n as [|n IH]; intros [|m] s Hn Hm; try lia.
  cbn [sub_from]. destruct (prefix_match r s) as [[x rest]|] eqn:Hx.
  - apply Regex.prefix_match_sound in Hx as [-> _]. f_equal.
    destruct x as [|c x].
    + destruct rest as [|c rest]; [reflexivity|].
      cbn [app length] in *. f_equal. apply IH; lia.
    + rewrite length_app in *. cbn [length] in *. apply IH; lia.
  - destruct s as [|c s]; [reflexivity|]. cbn [length] in *. f_equal. apply IH; lia.
Qed.

(** The equation of [sub], without fuel. *)
Lemma sub_eq r repl s :
  sub r repl s =
  match prefix_match r s with
  | Some (m, rest) =>
      repl ++
      match m with
      | [] => match s with
              | [] => []
              | c :: s' => c :: sub r repl s'
              end
      | _ => sub r repl rest
      end
  | None =>
      match s with
      | [] => []
      | c :: s' => c :: sub r repl s'
      end
  end.
Proof.
  unfold sub at 1. cbn [sub_from].
  destruct (prefix_match r s) as [[x rest]|] eqn:Hx.
  - apply Regex.prefix_match_sound in Hx as [-> _]. f_equal.
    destruct x as [|c x].
    + destruct rest; reflexivity.
    + apply sub_from_fuels; rewrite ?length_app; simpl; lia.
  - destruct s; reflexivity.
Qed.

Lemma sub_skip r repl c s :
  prefix_match r (c :: s) = None -> sub r repl (c :: s) = c :: sub r repl s.
Proof. intros H. rewrite sub_eq. by rewrite H. Qed.

Lemma sub_nil r repl :
  prefix_match r [] = None -> sub r repl [] = [].
Proof. intros H. rewrite sub_eq. by rewrite H. Qed.

Lemma prefix_match_of_rmatch r m rest :
  rmatch r (m ++ rest) Some = Some rest ->
  prefix_match r (m ++ rest) = Some (m, rest).
Proof.
  intros H. unfold prefix_match. rewrite H. by rewrite Regex.take_app_minus.
Qed.

(** A greedy repetition followed by nothing that can fail takes the whole
    run of its class. *)
Lemma star_greedy_run {A} p u v (k : text -> option A) :
  forallb p u = true ->
  match v with [] => True | c :: _ => p c = false end ->
  is_Some (k v) ->
  star_greedy p (u ++ v) k = k v.
Proof.
  intros Hu Hv [x Hk]. induction u as [|c u IH].
  - destruct v as [|d v]; [reflexivity|]. simpl. by rewrite Hv.
  - simpl in *. apply andb_prop in Hu as [-> Hu]. rewrite (IH Hu). by rewrite Hk.
Qed.

(** A text is a run of a class followed by a text that does not start
    with the class. *)
Lemma run_split (p : ascii -> bool) (s : text) :
  exists u v, s = u ++ v /\ forallb p u = true /\
              match v with [] => True | c :: _ => p c = false end.
Proof.
  induction s as [|c s (u & v & -> & Hu & Hv)].
  - by exists [], [].
  - destruct (p c) eqn:Hc.
    + exists (c :: u), v. simpl. by rewrite Hc, Hu.
    + exists [], (c :: u ++ v). simpl. auto.
Qed.

Lemma plus_run p c u v :
  p c = true -> forallb p u = true ->
  match v with [] => True | d :: _ => p d = false end ->
  prefix_match (Plus p) (c :: u ++ v) = Some (c :: u, v).
Proof.
  intros Hc Hu Hv. apply (prefix_match_of_rmatch (Plus p) (c :: u) v).
  cbn [rmatch Plus app]. rewrite Hc. by apply star_greedy_run.
Qed.

Lemma plus_fails p c s : p c = false -> prefix_match (Plus p) (c :: s) = None.
Proof. intros Hc. unfold prefix_match. cbn [rmatch Plus]. by rewrite Hc. Qed.

(** *** White space *)

Lemma sub_ws_visible c s :
  Char.is_space c = false ->
  sub ws (str " ") (c :: s) = c :: sub ws (str " ") s.
Proof. intros Hc. apply sub_skip. by apply plus_fails. Qed.

Lemma sub_ws_run c u v :
  Char.is_space c = true -> forallb Char.is_space u = true ->
  match v with [] => True | d :: _ => Char.is_space d = false end ->
  sub ws (str " ") (c :: u ++ v) = " " :: sub ws (str " ") v.
Proof.
  intros Hc Hu Hv. rewrite sub_eq.
  change (c :: u ++ v) with ((c :: u) ++ v) at 1.
  unfold ws at 1. cbn [app]. by rewrite (plus_run _ c u v).
Qed.

Lemma sub_ws_nil : sub ws (str " ") [] = [].
Proof. reflexivity. Qed.

(** The three facts about the collapse of white space, by induction on the
    length of the text. *)
Lemma sub_ws_facts : forall n s, (length s <= n)%nat ->
  collapsed (sub ws (str " ") s) = true /\
  (starts_visible s = true -> starts_visible (sub ws (str " ") s) = true) /\
  visible (sub ws (str " ") s) = visible s.
Proof.
  induction n as [|n IH]; intros s Hn.
  - destruct s; [|simpl in Hn; lia]. by rewrite sub_ws_nil.
  - destruct s as [|c s]; [by rewrite sub_ws_nil|]. simpl in Hn.
    destruct (Char.is_space c) eqn:Hc.
    + destruct (run_split Char.is_space s) as (u & v & -> & Hu & Hv).
      rewrite sub_ws_run by assumption.
      rewrite length_app in Hn.
      destruct (IH v ltac:(lia)) as (H1 & H2 & H3).
      split; [|split].
      * cbn [collapsed]. rewrite H1.
        assert (Hs : starts_visible (sub ws (str " ") v) = true).
        { apply H2. destruct v; [reflexivity|]. simpl. by rewrite Hv. }
        destruct (sub ws (str " ") v); [reflexivity|]. simpl in Hs. by rewrite Hs.
      * simpl. by rewrite Hc.
      * unfold visible in *. cbn [List.filter].
        change (Syntax.not_space " ") with false. cbv iota.
        assert (Hcf : Syntax.not_space c = false)
          by (unfold Syntax.not_space; by rewrite Hc).
        rewrite Hcf, H3, List.filter_app.
        assert (Hnone : List.filter Syntax.not_space u = []).
        { clear -Hu. induction u as [|d u IHu]; [reflexivity|].
          cbn [forallb List.filter] in *. apply andb_prop in Hu as [Hd Hu].
          unfold Syntax.not_space at 1. rewrite Hd. cbn [negb]. auto. }
        by rewrite Hnone.
    + rewrite sub_ws_visible by assumption.
      destruct (IH s ltac:(lia)) as (H1 & H2 & H3).
      split; [|split].
      * cbn [collapsed]. by rewrite Hc, H1.
      * intros _. simpl. by rewrite Hc.
      * unfold visible in *. cbn [List.filter].
        assert (Hcf : Syntax.not_space c = true)
          by (unfold Syntax.not_space; by rewrite Hc).
        by rewrite Hcf, H3.
Qed.

(** *** Comments *)

Lemma line_comment_start c s :
  is_Some (prefix_match LINE_COMMENT (c :: s)) ->
  c = "-" /\ exists s', s = "-" :: s'.
Proof.
  unfold prefix_match, LINE_COMMENT. cbn [cat lit str list_ascii_of_string map rmatch chr].
  destruct (Ascii.eqb "-" c) eqn:Hc; [|by intros [? ?]].
  apply Ascii.eqb_eq in Hc as <-.
  destruct s as [|d s]; [by intros [? ?]|].
  destruct (Ascii.eqb "-" d) eqn:Hd; [|by intros [? ?]].
  apply Ascii.eqb_eq in Hd as <-. eauto.
Qed.

Lemma block_comment_start c s :
  is_Some (prefix_match BLOCK_COMMENT (c :: s)) ->
  c = "/" /\ exists s', s = "*" :: s'.
Proof.
  unfold prefix_match, BLOCK_COMMENT. cbn [cat lit str list_ascii_of_string map rmatch chr].
  destruct (Ascii.eqb "/" c) eqn:Hc; [|by intros [? ?]].
  apply Ascii.eqb_eq in Hc as <-.
  destruct s as [|d s]; [by intros [? ?]|].
  destruct (Ascii.eqb "*" d) eqn:Hd; [|by intros [? ?]].
  apply Ascii.eqb_eq in Hd as <-. eauto.
Qed.

Lemma no_marker_no_comment s :
  no_comment_marker s = true ->
  sub LINE_COMMENT [] s = s /\ sub BLOCK_COMMENT [] s = s.
Proof.
  induction s as [|c s IH]; intros H.
  - split; reflexivity.
  - cbn [no_comment_marker] in H. apply andb_prop in H as [Hc Hs].
    destruct (IH Hs) as [IH1 IH2]. split.
    + rewrite sub_skip; [by rewrite IH1|].
      destruct (prefix_match LINE_COMMENT (c :: s)) eqn:E; [|reflexivity].
      destruct (line_comment_start c s) as (-> & s' & ->); [by rewrite E|].
      discriminate.
    + rewrite sub_skip; [by rewrite IH2|].
      destruct (prefix_match BLOCK_COMMENT (c :: s)) eqn:E; [|reflexivity].
      destruct (block_comment_start c s) as (-> & s' & ->); [by rewrite E|].
      discriminate.
Qed.

End SubFacts.

(** X2.  In the normalized content white space is collapsed: every white
    space character is a single space that no further white space follows;
    in particular the content has no line break and no tab. *)
Theorem normalized_white_space_is_collapsed (document : text) :
  Shape.collapsed (normalize document) = true /\
  Forall (fun c => Char.is_space c = true -> c = " "%char) (normalize document).
Proof.
  assert (H : Shape.collapsed (normalize document) = true).
  { unfold normalize. eapply SubFacts.sub_ws_facts. reflexivity. }
  split; [exact H|].
  induction (normalize document) as [|c s IH]; [constructor|].
  cbn [Shape.collapsed] in H. apply andb_prop in H as [Hc Hs].
  constructor; [|auto]. intros Hsp. rewrite Hsp in Hc.
  apply andb_prop in Hc as [Hc _]. by apply Ascii.eqb_eq in Hc.
Qed.

(** X3.  A document in which neither [--] nor [/*] stands loses nothing but
    white space: normalizing it is collapsing its white space, and the
    characters that are not white space stay as they are, in their order. *)
Theorem document_without_comments_keeps_its_text (document : text) :
  Shape.no_comment_marker document = true ->
  normalize document = sub ws (str " ") document /\
  Shape.visible (normalize document) = Shape.visible document.
Proof.
  intros H. destruct (SubFacts.no_marker_no_comment _ H) as [H1 H2].
  unfold normalize. rewrite H1, H2. split; [reflexivity|].
  eapply SubFacts.sub_ws_facts. reflexivity.
Qed.

Lemma document_without_comments_keeps_its_text_witness :
  Shape.visible (normalize demo_text) = Shape.visible demo_text.
Proof.
  apply (document_without_comments_keeps_its_text demo_text). reflexivity.
Defined.

(** ** The shape of a statement *)

Module StatementShape.
Import Shape Syntax SyntaxFacts.

(** A character that matches a letter of CREATE without regard to case is
    that letter when put in upper case. *)
Lemma create_letter L x :
  In L (str "CREATE") ->
  Ascii.eqb (Char.lower x) (Char.lower L) = true -> Char.upper x = L.
Proof.
  intros HL Hx. apply Ascii.eqb_eq.
  revert Hx.
  apply (cls_sub_spec (fun x => Ascii.eqb (Char.lower x) (Char.lower L))
                      (fun x => Ascii.eqb (Char.upper x) L) x).
  simpl in HL. destruct HL as [<-|[<-|[<-|[<-|[<-|[<-|[]]]]]]];
    vm_compute; reflexivity.
Qed.

Lemma lit_create u v :
  Matches (lit_i "CREATE") u v -> Str.upper u = str "CREATE".
Proof.
  unfold lit_i. cbn [str list_ascii_of_string map cat]. unfold chr_i.
  intros M.
  repeat match goal with
         | H : Matches (Cat _ _) _ _ |- _ => inversion H; subst; clear H
         | H : Matches (Cls _) _ _ |- _ => inversion H; subst; clear H
         end.
  cbn [app Str.upper map].
  repeat match goal with
         | H : Ascii.eqb (Char.lower _) (Char.lower _) = true |- _ =>
             apply create_letter in H; [rewrite H; clear H|simpl; tauto]
         end.
  reflexivity.
Qed.

Lemma patterns_start_with_create :
  Forall (fun p => exists r, p = Cat (lit_i "CREATE") r) DDL_PATTERNS.
Proof. repeat (constructor; [eexists; reflexivity|]). constructor. Qed.

Lemma startswith_app p s t :
  Str.startswith p s = true -> Str.startswith p (s ++ t) = true.
Proof.
  revert s. induction p as [|a p IH]; intros [|b s]; simpl; try discriminate; auto.
  intros H. apply andb_prop in H as [-> H]. simpl. auto.
Qed.

Lemma startswith_refl p : Str.startswith p p = true.
Proof. induction p as [|a p IH]; simpl; [reflexivity|]. by rewrite Ascii.eqb_refl. Qed.

Lemma upper_app s t : Str.upper (s ++ t) = Str.upper s ++ Str.upper t.
Proof. apply map_app. Qed.

Lemma pattern_match_starts_with_create p u v :
  In p DDL_PATTERNS -> Matches p u v -> starts_with_create u = true.
Proof.
  intros Hp M. pose proof patterns_start_with_create as F.
  rewrite List.Forall_forall in F. destruct (F p Hp) as [r ->].
  inversion M; subst. unfold starts_with_create. rewrite upper_app.
  erewrite lit_create by eassumption.
  apply startswith_app, startswith_refl.
Qed.

Lemma count_semi_app s t : count_semi (s ++ t) = (count_semi s + count_semi t)%nat.
Proof. unfold count_semi. by rewrite List.filter_app, length_app. Qed.

Lemma count_semi_none w : forallb not_semi w = true -> count_semi w = 0%nat.
Proof.
  induction w as [|c w IH]; [reflexivity|]. simpl. intros H.
  apply andb_prop in H as [Hc Hw]. unfold count_semi in *. simpl.
  unfold not_semi in Hc. apply negb_true_iff in Hc. unfold is_semi at 1.
  rewrite Hc. auto.
Qed.

Lemma count_semi_one w : forallb not_semi w = true -> count_semi (w ++ [";"]) = 1%nat.
Proof. intros H. by rewrite count_semi_app, count_semi_none. Qed.

(** *** The pieces of [split] and what [strip] keeps *)

Lemma split_nonempty sep s : Str.split sep s <> [].
Proof.
  destruct s as [|c s]; simpl; [discriminate|].
  destruct (Ascii.eqb c sep); [discriminate|].
  destruct (Str.split sep s); discriminate.
Qed.

Lemma split_pieces sep (q : ascii -> bool) s :
  forallb q s = true -> Forall (fun piece => forallb q piece = true) (Str.split sep s).
Proof.
  induction s as [|c s IH]; simpl; intros H.
  - repeat constructor.
  - apply andb_prop in H as [Hc Hs]. specialize (IH Hs).
    destruct (Ascii.eqb c sep).
    + constructor; [reflexivity|assumption].
    + destruct (Str.split sep s) as [|piece pieces]; [repeat constructor; simpl; by rewrite Hc|].
      inversion IH; subst. constructor; [simpl; by rewrite Hc|assumption].
Qed.

Lemma split_pieces_no_sep sep s :
  Forall (fun piece => forallb (fun c => negb (Ascii.eqb c sep)) piece = true)
         (Str.split sep s).
Proof.
  induction s as [|c s IH]; simpl.
  - repeat constructor.
  - destruct (Ascii.eqb c sep) eqn:Hc.
    + constructor; [reflexivity|assumption].
    + destruct (Str.split sep s) as [|piece pieces]; [repeat constructor; simpl; by rewrite Hc|].
      inversion IH; subst. constructor; [simpl; by rewrite Hc|assumption].
Qed.

Lemma forallb_lstrip (q : ascii -> bool) s :
  forallb q s = true -> forallb q (Str.lstrip s) = true.
Proof.
  induction s as [|c s IH]; simpl; [auto|]. intros H.
  destruct (Char.is_space c); [|exact H].
  apply andb_prop in H as [_ H]. auto.
Qed.

Lemma forallb_rev (q : ascii -> bool) s :
  forallb q s = true -> forallb q (rev s) = true.
Proof.
  rewrite !forallb_forall. intros H c Hc. apply H. by apply in_rev.
Qed.

Lemma forallb_strip (q : ascii -> bool) s :
  forallb q s = true -> forallb q (Str.strip s) = true.
Proof.
  intros H. unfold Str.strip, Str.rstrip.
  by apply forallb_rev, forallb_lstrip, forallb_rev, forallb_lstrip.
Qed.

End StatementShape.

(** X4.  Every statement that is found in a document, by a pattern or by
    the fallback, starts with CREATE in upper or lower case and contains
    exactly one semicolon, which is its last character. *)
Theorem statements_are_create_up_to_semicolon (document : text) :
  Forall (fun statement =>
            Shape.starts_with_create statement = true /\
            Shape.count_semi statement = 1%nat /\
            ends_with_semi statement)
         (all_statements (normalize document)).
Proof.
  apply List.Forall_forall. intros stmt Hin.
  destruct (Found.all_statements_cases (normalize document)) as [[_ E]|[_ E]];
    rewrite E in Hin.
  - destruct (Found.pattern_statement_shape _ _ Hin) as (w & -> & Hw).
    split; [|split; [by apply StatementShape.count_semi_one|by exists w]].
    rewrite Patterns.pattern_statements_concat, in_concat in Hin.
    destruct Hin as (l & Hl & Hs). apply in_map_iff in Hl as (p & <- & Hp).
    apply Found.findall_Matches in Hs as [v M].
    by apply (StatementShape.pattern_match_starts_with_create p _ v).
  - unfold fallback_statements in Hin. apply in_map_iff in Hin as (seg & <- & Hseg).
    apply filter_In in Hseg as [Hseg Hc].
    split; [|split; [|by eexists]].
    + unfold Shape.starts_with_create. rewrite StatementShape.upper_app.
      by apply StatementShape.startswith_app.
    + apply StatementShape.count_semi_one, StatementShape.forallb_strip.
      pose proof (StatementShape.split_pieces_no_sep ";" (normalize document)) as F.
      rewrite List.Forall_forall in F. exact (F seg Hseg).
Qed.

(** ** The descriptor *)

Module Descriptor.
Import Shape Syntax SyntaxFacts.

Lemma plus_matches p u v :
  Matches (Plus p) u v -> u <> [] /\ forallb p u = true.
Proof.
  unfold Plus. intros M. inversion M as [| |r1 r2 u1 u2 v' M1 M2| | | | |]; subst.
  inversion M1; subst. inversion M2; subst. split; [discriminate|].
  simpl. by rewrite H0, H1.
Qed.

(** The two groups of the match are a word and a run of name characters,
    with white space between them, at the start of the text. *)
Lemma match_type_and_name_spec s t n :
  match_type_and_name s = Some (t, n) ->
  t <> [] /\ forallb Char.is_word t = true /\
  n <> [] /\ forallb name_char n = true /\
  exists gap tail, s = t ++ gap ++ n ++ tail /\ gap <> [] /\
                   forallb Char.is_space gap = true.
Proof.
  unfold match_type_and_name. intros H.
  apply Regex.rmatch_sound in H as (u1 & v1 & -> & M1 & H).
  apply Regex.rmatch_sound in H as (u2 & v2 & -> & M2 & H).
  apply Regex.rmatch_sound in H as (u3 & v3 & -> & M3 & H).
  rewrite !Regex.take_app_minus in H. injection H as <- <-.
  apply plus_matches in M1 as [? ?]. apply plus_matches in M2 as [? ?].
  apply plus_matches in M3 as [? ?].
  repeat (split; [assumption|]). exists u2, v3. auto.
Qed.

Lemma sub_cls_delete p s :
  sub (Cls p) [] s = List.filter (fun c => negb (p c)) s.
Proof.
  unfold sub. rewrite Sanitize.sub_from_cls by lia.
  induction s as [|c s IH]; [reflexivity|]. simpl. rewrite IH.
  by destruct (p c).
Qed.

Lemma forallb_filter_and (p q : ascii -> bool) s :
  forallb q s = true ->
  forallb (fun c => q c && p c) (List.filter p s) = true.
Proof.
  induction s as [|c s IH]; [reflexivity|]. simpl. intros H.
  apply andb_prop in H as [Hc Hs]. destruct (p c) eqn:Hp; simpl; [|auto].
  by rewrite Hc, Hp, IH.
Qed.

Lemma last_piece_in sep s : In (Str.last_piece (Str.split sep s)) (Str.split sep s).
Proof.
  unfold Str.last_piece. pose proof (StatementShape.split_nonempty sep s) as H.
  destruct (Str.split sep s) as [|x l]; [congruence|].
  clear H. revert x. induction l as [|y l IH]; intros x; [by left|].
  right. apply (IH y).
Qed.

Lemma last_piece_chars sep (q : ascii -> bool) s :
  forallb q s = true ->
  forallb (fun c => q c && negb (Ascii.eqb c sep)) (Str.last_piece (Str.split sep s)) = true.
Proof.
  intros Hq. pose proof (last_piece_in sep s) as Hin.
  pose proof (StatementShape.split_pieces sep q s Hq) as F1.
  pose proof (StatementShape.split_pieces_no_sep sep s) as F2.
  rewrite List.Forall_forall in F1, F2.
  specialize (F1 _ Hin). specialize (F2 _ Hin).
  rewrite forallb_forall in *. intros c Hc. by rewrite F1, F2.
Qed.

Lemma lower_kind t :
  forallb Char.is_word t = true -> forallb kind_char (Str.lower t) = true.
Proof.
  intros H. unfold Str.lower. rewrite forallb_forall in *. intros c Hc.
  apply in_map_iff in Hc as (x & <- & Hx). specialize (H x Hx).
  revert H. apply (cls_sub_spec Char.is_word (fun x => kind_char (Char.lower x)) x).
  vm_compute. reflexivity.
Qed.

End Descriptor.

(** X5.  The descriptor of a statement is either [object_] followed by a
    number below 10000, or a kind, an underscore and a name: the kind is
    not empty and consists of digits, underscores and lower case letters,
    and the name has no white space, parenthesis, quote or dot. *)
Theorem descriptor_shape (e : env) (statement : text) :
  (exists k, (0 <= k < 10000)%Z /\
     _extract_object_name e statement = str "object_" ++ Str.of_nat (Z.to_nat k)) \/
  (exists kind name,
     _extract_object_name e statement = kind ++ str "_" ++ name /\
     kind <> [] /\ forallb Shape.kind_char kind = true /\
     forallb Shape.plain_name_char name = true).
Proof.
  unfold _extract_object_name.
  destruct (match_type_and_name _) as [[t n]|] eqn:Hm.
  - right. apply Descriptor.match_type_and_name_spec in Hm as (Ht & Hw & _ & Hn & _).
    eexists _, _. split; [reflexivity|]. split; [|split].
    + destruct t; [congruence|discriminate].
    + by apply Descriptor.lower_kind.
    + rewrite Descriptor.sub_cls_delete.
      pose proof (Descriptor.forallb_filter_and (fun c => negb (is_quote c)) name_char n Hn) as H1.
      pose proof (Descriptor.last_piece_chars "." _ _ H1) as H2.
      rewrite forallb_forall in *. intros c Hc. specialize (H2 c Hc).
      unfold Shape.plain_name_char. unfold name_char in H2.
      apply andb_prop in H2 as [H2 Hdot]. apply andb_prop in H2 as [Hnc Hq].
      apply negb_true_iff in Hnc, Hq, Hdot. apply orb_false_elim in Hnc as [Hs Hp].
      by rewrite Hs, Hp, Hq, Hdot.
  - left. eexists. split; [|reflexivity].
    apply Z.mod_pos_bound. lia.
Qed.

(** X6.  [_sanitize_filename] keeps at most 200 characters, and applying it
    to its own result changes nothing. *)
Theorem sanitize_is_idempotent (filename : text) :
  (length (_sanitize_filename filename) <= 200)%nat /\
  _sanitize_filename (_sanitize_filename filename) = _sanitize_filename filename.
Proof.
  rewrite !Sanitize.sanitize_eq. split; [rewrite length_take; lia|].
  rewrite <- firstn_map, take_take, Nat.min_id, map_map. f_equal.
  apply map_ext. intros c. unfold replace_invalid.
  destruct (is_invalid_char c) eqn:H; [reflexivity|by rewrite H].
Qed.

(** ** The descriptor of a table *)

Module TableName.
Import Shape Syntax SyntaxFacts.

(** A match of [CREATE_PREFIX] starts with the six letters of CREATE and a
    white space character. *)
Lemma create_prefix_shape t :
  is_Some (prefix_match CREATE_PREFIX t) ->
  exists w c t', t = w ++ c :: t' /\ Str.upper w = str "CREATE" /\
                 Char.is_space c = true.
Proof.
  intros [[m rest] H]. apply Regex.prefix_match_sound in H as [-> M].
  unfold CREATE_PREFIX, create_or_replace in M. cbn [cat] in M.
  inversion M as [| |r1 r2 u1 u2 v' M1 M2| | | | |]; subst.
  inversion M2 as [| |r1 r2 u3 u4 v' M3 M4| | | | |]; subst.
  apply StatementShape.lit_create in M1.
  unfold ws, Plus in M3.
  inversion M3 as [| |r1 r2 u5 u6 v' M5 M6| | | | |]; subst.
  inversion M5; subst.
  exists u1, c, (u6 ++ u4 ++ rest). split; [|auto].
  by rewrite <- !app_assoc.
Qed.

Lemma endswith_app suffix pre : Cli.endswith suffix (pre ++ suffix) = true.
Proof.
  unfold Cli.endswith. rewrite rev_app_distr.
  apply StatementShape.startswith_app, StatementShape.startswith_refl.
Qed.

(** No match of [CREATE_PREFIX] starts in a name that is followed by a
    parenthesis, or by a space when the name does not end with CREATE. *)
Lemma no_create_in_name pre sfx d rest :
  forallb name_char sfx = true ->
  d = "("%char \/ (d = " "%char /\ Cli.endswith (str "CREATE") (Str.upper (pre ++ sfx)) = false) ->
  prefix_match CREATE_PREFIX (sfx ++ d :: rest) = None.
Proof.
  intros Hn Hd.
  destruct (prefix_match CREATE_PREFIX (sfx ++ d :: rest)) as [x|] eqn:E; [|reflexivity].
  exfalso. destruct (create_prefix_shape (sfx ++ d :: rest)) as (w & c & t' & Heq & Hw & Hc);
    [by rewrite E|].
  assert (Hsame : sfx = w -> d = c -> False).
  { intros -> ->. destruct Hd as [->|[-> Hd]]; [discriminate|].
    rewrite StatementShape.upper_app, Hw in Hd.
    by rewrite endswith_app in Hd. }
  apply app_eq_app in Heq as [l [[E1 E2]|[E1 E2]]].
  - destruct l as [|y l].
    + rewrite app_nil_r in E1. injection E2 as E2 _. auto.
    + injection E2 as <- _. subst sfx. rewrite forallb_app in Hn.
      apply andb_prop in Hn as [_ Hn]. simpl in Hn.
      apply andb_prop in Hn as [Hn _]. unfold name_char in Hn.
      by rewrite Hc in Hn.
  - destruct l as [|y l].
    + rewrite app_nil_r in E1. injection E2 as E2 _. auto.
    + injection E2 as <- _. subst w.
      rewrite StatementShape.upper_app in Hw. cbn [Str.upper map] in Hw.
      assert (Hin : In (Char.upper d) (str "CREATE")).
      { rewrite <- Hw. apply in_or_app. right. by left. }
      destruct Hd as [->|[-> _]]; vm_compute in Hin; intuition discriminate.
Qed.

Lemma sub_keeps_name d rest : forall sfx pre,
  forallb name_char sfx = true ->
  d = "("%char \/ (d = " "%char /\ Cli.endswith (str "CREATE") (Str.upper (pre ++ sfx)) = false) ->
  sub CREATE_PREFIX [] (sfx ++ d :: rest) = sfx ++ d :: sub CREATE_PREFIX [] rest.
Proof.
  induction sfx as [|c sfx IH]; intros pre Hn Hd.
  - apply SubFacts.sub_skip. by apply (no_create_in_name pre []).
  - cbn [app]. rewrite SubFacts.sub_skip.
    + f_equal. apply (IH (pre ++ [c])).
      * simpl in Hn. by apply andb_prop in Hn as [_ Hn].
      * by rewrite <- app_assoc.
    + by apply (no_create_in_name pre (c :: sfx)).
Qed.

(** *** Trimming on the right *)

Lemma lstrip_app_visible P Q :
  starts_visible Q = true -> Q <> [] -> Str.lstrip (P ++ Q) = Str.lstrip P ++ Q.
Proof.
  intros HQ HQ'. induction P as [|c P IH]; simpl.
  - destruct Q as [|q Q]; [congruence|]. simpl in *.
    apply negb_true_iff in HQ. by rewrite HQ.
  - by destruct (Char.is_space c).
Qed.

Lemma rstrip_app_visible A a B :
  Char.is_space a = false ->
  Str.rstrip ((A ++ [a]) ++ B) = (A ++ [a]) ++ Str.rstrip B.
Proof.
  intros Ha. unfold Str.rstrip. rewrite rev_app_distr.
  rewrite lstrip_app_visible.
  - by rewrite rev_app_distr, rev_involutive.
  - rewrite rev_app_distr. simpl. by rewrite Ha.
  - rewrite rev_app_distr. discriminate.
Qed.

Lemma lstrip_suffix s : exists t, s = t ++ Str.lstrip s.
Proof.
  induction s as [|c s [t IH]]; [by exists []|]. simpl.
  destruct (Char.is_space c); [|by exists []].
  exists (c :: t). simpl. by rewrite <- IH.
Qed.

Lemma rstrip_prefix s : exists t, s = Str.rstrip s ++ t.
Proof.
  unfold Str.rstrip. destruct (lstrip_suffix (rev s)) as [t E].
  exists (rev t). rewrite <- rev_app_distr, <- E. by rewrite rev_involutive.
Qed.

(** What is left of the text after the name does not start with a name
    character. *)
Lemma after_name d R :
  name_char d = false ->
  match Str.rstrip (d :: R) with [] => True | c :: _ => name_char c = false end.
Proof.
  intros Hd. destruct (rstrip_prefix (d :: R)) as [t E].
  destruct (Str.rstrip (d :: R)) as [|c B]; [exact I|].
  injection E as <- _. exact Hd.
Qed.

(** The match of the kind and the name in [TABLE name ...]. *)
Lemma match_table name B :
  name <> [] -> forallb name_char name = true ->
  match B with [] => True | c :: _ => name_char c = false end ->
  match_type_and_name (str "TABLE " ++ name ++ B) = Some (str "TABLE", name).
Proof.
  intros Hne Hn HB. destruct name as [|n0 name]; [congruence|].
  simpl in Hn. apply andb_prop in Hn as [Hn0 Hn].
  assert (Hsp : Char.is_space n0 = false).
  { unfold name_char in Hn0. apply negb_true_iff, orb_false_elim in Hn0. tauto. }
  unfold match_type_and_name.
  set (s := str "TABLE " ++ (n0 :: name) ++ B).
  set (k3 := fun s2 s3 : text =>
               Some (take (length s - length (" "%char :: (n0 :: name) ++ B)) s,
                     take (length s2 - length s3) s2)).
  assert (E3 : rmatch (Plus name_char) ((n0 :: name) ++ B) (k3 ((n0 :: name) ++ B))
               = Some (str "TABLE", n0 :: name)).
  { cbn [rmatch Plus app]. rewrite Hn0.
    rewrite SubFacts.star_greedy_run; [|assumption|assumption|by eexists].
    unfold k3. f_equal. f_equal.
    - change s with (str "TABLE" ++ " "%char :: (n0 :: name) ++ B).
      apply Regex.take_app_minus.
    - change (n0 :: name ++ B) with ((n0 :: name) ++ B).
      apply Regex.take_app_minus. }
  assert (E2 : rmatch ws (" "%char :: (n0 :: name) ++ B)
                 (fun s2 => rmatch (Plus name_char) s2 (k3 s2))
               = Some (str "TABLE", n0 :: name)).
  { unfold ws. cbn [rmatch Plus]. change (Char.is_space " ") with true. cbv iota.
    rewrite (SubFacts.star_greedy_run Char.is_space [] ((n0 :: name) ++ B));
      [exact E3|reflexivity|exact Hsp|exists (str "TABLE", n0 :: name); exact E3]. }
  change s with ("T"%char :: str "ABLE" ++ " "%char :: (n0 :: name) ++ B).
  cbn [rmatch Plus]. change (Char.is_word "T") with true. cbv iota.
  rewrite (SubFacts.star_greedy_run Char.is_word (str "ABLE")
             (" "%char :: (n0 :: name) ++ B)); [|reflexivity|reflexivity|].
  - exact E2.
  - exists (str "TABLE", n0 :: name). exact E2.
Qed.

(** The head of the statement is removed, and nothing else up to the end
    of the name. *)
Lemma sub_create_table (or_replace : bool) name d rest :
  forallb name_char name = true ->
  d = "("%char \/ (d = " "%char /\ Cli.endswith (str "CREATE") (Str.upper name) = false) ->
  sub CREATE_PREFIX []
      ((if or_replace then str "CREATE OR REPLACE TABLE " else str "CREATE TABLE ")
       ++ name ++ d :: rest)
  = str "TABLE " ++ name ++ d :: sub CREATE_PREFIX [] rest.
Proof.
  intros Hn Hd.
  assert (Htail : sub CREATE_PREFIX [] (str "TABLE " ++ name ++ d :: rest)
                  = str "TABLE " ++ name ++ d :: sub CREATE_PREFIX [] rest).
  { cbn [str list_ascii_of_string app].
    do 6 (rewrite SubFacts.sub_skip; [f_equal|reflexivity]).
    by apply (sub_keeps_name d rest name []). }
  rewrite SubFacts.sub_eq. destruct or_replace.
  - change (str "CREATE OR REPLACE TABLE " ++ name ++ d :: rest)
      with (str "CREATE OR REPLACE " ++ str "TABLE " ++ name ++ d :: rest).
    rewrite (SubFacts.prefix_match_of_rmatch CREATE_PREFIX (str "CREATE OR REPLACE ")
               (str "TABLE " ++ name ++ d :: rest)); [|reflexivity].
    exact Htail.
  - change (str "CREATE TABLE " ++ name ++ d :: rest)
      with (str "CREATE " ++ str "TABLE " ++ name ++ d :: rest).
    rewrite (SubFacts.prefix_match_of_rmatch CREATE_PREFIX (str "CREATE ")
               (str "TABLE " ++ name ++ d :: rest)); [|reflexivity].
    exact Htail.
Qed.

End TableName.

(** X7.  For a statement [CREATE TABLE name ...] or [CREATE OR REPLACE
    TABLE name ...], where the name is a run of characters other than white
    space and the parenthesis, followed by a parenthesis or by a space, the
    descriptor is [table_] and the last dot-separated part of the name
    without its quotes.  The condition on a name before a space is needed:
    the prefix CREATE is removed wherever it stands, so the table
    [recreate] followed by a space gets the descriptor [table_re]. *)
Theorem table_descriptor (e : env) (or_replace : bool) (name rest : text)
    (d : ascii) :
  name <> [] ->
  forallb name_char name = true ->
  d = "("%char \/
  (d = " "%char /\ Cli.endswith (str "CREATE") (Str.upper name) = false) ->
  _extract_object_name e
    ((if or_replace then str "CREATE OR REPLACE TABLE " else str "CREATE TABLE ")
     ++ name ++ d :: rest)
  = str "table_" ++
    Str.last_piece (Str.split "." (List.filter (fun c => negb (is_quote c)) name)) /\
  _extract_object_name e (str "CREATE TABLE recreate (x INT);") = str "table_re".
Proof.
  intros Hne Hn Hd. split; [|vm_compute; reflexivity].
  unfold _extract_object_name.
  rewrite TableName.sub_create_table by assumption.
  destruct (exists_last Hne) as (name' & a & Hname).
  assert (Ha : Char.is_space a = false).
  { rewrite Hname, forallb_app in Hn. apply andb_prop in Hn as [_ Hn].
    simpl in Hn. apply andb_prop in Hn as [Hn _]. unfold name_char in Hn.
    apply negb_true_iff, orb_false_elim in Hn. tauto. }
  assert (Hstrip : Str.strip (str "TABLE " ++ name ++ d :: sub CREATE_PREFIX [] rest)
                   = str "TABLE " ++ name ++ Str.rstrip (d :: sub CREATE_PREFIX [] rest)).
  { unfold Str.strip. change (Str.lstrip (str "TABLE " ++ ?x)) with (str "TABLE " ++ x).
    rewrite Hname.
    replace (str "TABLE " ++ (name' ++ [a]) ++ d :: sub CREATE_PREFIX [] rest)
      with (((str "TABLE " ++ name') ++ [a]) ++ d :: sub CREATE_PREFIX [] rest)
      by (by rewrite <- !app_assoc).
    rewrite TableName.rstrip_app_visible by assumption.
    by rewrite <- !app_assoc. }
  rewrite Hstrip.
  rewrite TableName.match_table; [|assumption|assumption|].
  - by rewrite Descriptor.sub_cls_delete.
  - apply TableName.after_name. destruct Hd as [->|[-> _]]; reflexivity.
Qed.

Lemma table_descriptor_witness :
  _extract_object_name demo_env (str "CREATE TABLE sales.orders (id INT);")
  = str "table_orders".
Proof.
  apply (table_descriptor demo_env false (str "sales.orders") (str "(id INT);") " ").
  - discriminate.
  - reflexivity.
  - right. split; reflexivity.
Defined.

(** ** What a run leaves alone *)

Module Frame.
Import Shape.

Lemma mkdir_read fs out D p :
  Path.mkdir fs out = Some D -> Path.read D p = Path.read fs p.
Proof.
  intros H. apply Files.mkdir_from_spec in H as (_ & Hf & _).
  unfold Path.read. destruct (D !! p) as [[c|]|] eqn:E.
  - apply Hf in E. by rewrite E.
  - destruct (fs !! p) as [[c|]|] eqn:E'; try reflexivity.
    apply Hf in E'. congruence.
  - destruct (fs !! p) as [[c|]|] eqn:E'; try reflexivity.
    apply Hf in E'. congruence.
Qed.

Lemma mkdir_dom fs out D : Path.mkdir fs out = Some D -> dom fs ⊆ dom D.
Proof.
  intros H. apply Files.mkdir_from_spec in H as (_ & Hf & Hd).
  intros p Hp. apply elem_of_dom in Hp as [[c|] Hp]; apply elem_of_dom.
  - exists (File c). by apply Hf.
  - exists Dir. by apply Hd.
Qed.

Lemma apply_writes_dom (ws : list (path * text)) : forall fs,
  dom fs ⊆ dom (apply_writes fs ws).
Proof.
  induction ws as [|[q d] ws IH]; intros fs; [done|].
  simpl. etrans; [|apply IH]. rewrite dom_insert. set_solver.
Qed.

Lemma apply_writes_read (ws : list (path * text)) fs p :
  ~ In p (map fst ws) -> Path.read (apply_writes fs ws) p = Path.read fs p.
Proof. intros H. unfold Path.read. by rewrite Files.apply_writes_other. Qed.

(** A run of [split_single_file] changes the text of no file but the ones
    it opens, and removes nothing. *)
Lemma single_file_frame e fs input out p :
  (forall ns, p <> Spec.target e (Path.stem input) out ns) ->
  Path.read (fst (split_single_file e fs input out)) p = Path.read fs p.
Proof.
  intros Hp. unfold split_single_file.
  destruct (Path.mkdir fs out) as [D|] eqn:Hmk; [|reflexivity].
  rewrite <- (mkdir_read fs out D p Hmk).
  destruct (Path.read D input) as [content|]; [|reflexivity].
  rewrite Loop.write_statements_spec. cbn [fst].
  apply apply_writes_read. rewrite Rerun.outputs_targets, in_map_iff.
  intros (ns & E & _). by apply (Hp ns).
Qed.

Lemma single_file_dom e fs input out :
  dom fs ⊆ dom (fst (split_single_file e fs input out)).
Proof.
  unfold split_single_file.
  destruct (Path.mkdir fs out) as [D|] eqn:Hmk; [|done].
  pose proof (mkdir_dom _ _ _ Hmk) as HD.
  destruct (Path.read D input) as [content|]; [|exact HD].
  rewrite Loop.write_statements_spec. cbn [fst].
  etrans; [exact HD|apply apply_writes_dom].
Qed.

Lemma target_directly_in e stem out ns : directly_in out (Spec.target e stem out ns).
Proof. by eexists. Qed.

Lemma directly_in_below out p : directly_in out p -> at_or_below out p.
Proof. intros [name ->]. unfold at_or_below, Path.join. by rewrite take_app_length. Qed.

Lemma below_subdirectory out name p :
  at_or_below (Path.join out name) p -> at_or_below out p.
Proof.
  unfold at_or_below, Path.join. intros H.
  assert (E : take (length out) p
              = take (length out) (take (length (out ++ [name])) p)).
  { rewrite take_take. f_equal. rewrite length_app. simpl. lia. }
  rewrite E, H. apply take_app_length.
Qed.

Lemma split_files_frame e out p :
  ~ at_or_below out p ->
  forall files fs n m,
    Path.read (fst (fst (split_files e out files (fs, n, m)))) p = Path.read fs p /\
    dom fs ⊆ dom (fst (fst (split_files e out files (fs, n, m)))).
Proof.
  intros Hp. induction files as [|f files IH]; intros fs n m; [done|].
  cbn [split_files].
  pose proof (single_file_frame e fs f (Path.join out (Path.stem f)) p) as H1.
  pose proof (single_file_dom e fs f (Path.join out (Path.stem f))) as H2.
  destruct (split_single_file e fs f (Path.join out (Path.stem f))) as [fs' [[t k]|]];
    cbn [fst] in *.
  - destruct (IH fs' (S n) (m + k)%nat) as [E1 E2]. split.
    + rewrite E1. apply H1. intros ns ->. apply Hp.
      eapply below_subdirectory, directly_in_below, target_directly_in.
    + etrans; eassumption.
  - destruct (IH fs' n m) as [E1 E2]. split.
    + rewrite E1. apply H1. intros ns ->. apply Hp.
      eapply below_subdirectory, directly_in_below, target_directly_in.
    + etrans; eassumption.
Qed.

End Frame.

(** X8.  A run of [split_single_file] changes the text of no file that is
    not an entry of the output directory, never changes its input file,
    and removes no file and no directory. *)
Theorem single_file_run_changes_only_its_outputs (e : env) (fs : filesystem)
    (input_file output_dir p : path) :
  ~ Shape.directly_in output_dir p ->
  Path.read (fst (split_single_file e fs input_file output_dir)) p = Path.read fs p /\
  Path.read (fst (split_single_file e fs input_file output_dir)) input_file
    = Path.read fs input_file /\
  dom fs ⊆ dom (fst (split_single_file e fs input_file output_dir)).
Proof.
  intros Hp. split; [|split].
  - apply Frame.single_file_frame. intros ns ->. apply Hp, Frame.target_directly_in.
  - apply Frame.single_file_frame. intros ns E. symmetry in E.
    by apply Stem.target_not_input in E.
  - apply Frame.single_file_dom.
Qed.

Lemma single_file_run_changes_only_its_outputs_witness :
  Path.read (fst (split_single_file demo_env demo_fs [str "demo.sql"] demo_out))
            [str "demo.sql"]
  = Path.read demo_fs [str "demo.sql"].
Proof.
  apply (single_file_run_changes_only_its_outputs demo_env demo_fs
           [str "demo.sql"] demo_out [str "demo.sql"]).
  intros [name H]. vm_compute in H. discriminate.
Defined.

(** X9.  A run of [split_ddl], on a file or on a folder, changes the text
    of no file outside the output directory and removes no file and no
    directory. *)
Theorem run_changes_only_the_output_directory (e : env) (fs : filesystem)
    (input_path output_dir p : path) :
  ~ Shape.at_or_below output_dir p ->
  Path.read (fst (split_ddl e fs input_path output_dir)) p = Path.read fs p /\
  dom fs ⊆ dom (fst (split_ddl e fs input_path output_dir)).
Proof.
  intros Hp. unfold split_ddl. destruct (Path.is_file fs input_path).
  - pose proof (Frame.single_file_frame e fs input_path output_dir p) as H1.
    pose proof (Frame.single_file_dom e fs input_path output_dir) as H2.
    destruct (split_single_file e fs input_path output_dir) as [fs' [[t k]|]];
      cbn [fst] in *; (split; [|exact H2]); apply H1; intros ns ->;
      apply Hp, Frame.directly_in_below, Frame.target_directly_in.
  - destruct (_find_ddl_files fs input_path) as [|f files] eqn:Hf; [done|].
    destruct (Frame.split_files_frame e output_dir p Hp (f :: files) fs 0%nat 0%nat)
      as [E1 E2].
    destruct (split_files e output_dir (f :: files) (fs, 0%nat, 0%nat))
      as [[fs' n] m]. exact (conj E1 E2).
Qed.

Lemma run_changes_only_the_output_directory_witness :
  Path.read (fst (split_ddl demo_env folder_fs [str "in"] [str "out"]))
            [str "in"; str "notes.txt"]
  = Path.read folder_fs [str "in"; str "notes.txt"].
Proof.
  apply (run_changes_only_the_output_directory demo_env folder_fs
           [str "in"] [str "out"] [str "in"; str "notes.txt"]).
  intros H. vm_compute in H. discriminate.
Defined.

(** ** The default output directory *)



(** ** The files of a folder *)

Module Folder.
Import Shape.

Lemma text_leb_total a : forall b,
  Path.text_leb a b = false -> Path.text_leb b a = true.
Proof.
  induction a as [|x a IH]; intros [|y b]; simpl; try discriminate; auto.
  intros H. apply orb_false_elim in H as [H1 H2].
  apply Nat.ltb_ge in H1.
  destruct (Char.code y <? Char.code x)%nat eqn:Hlt; [reflexivity|].
  apply Nat.ltb_ge in Hlt. simpl.
  assert (E : Char.code x = Char.code y) by lia.
  rewrite E, Nat.eqb_refl in *. simpl in *. auto.
Qed.

Lemma leb_total p : forall q, Path.leb p q = false -> Path.leb q p = true.
Proof.
  induction p as [|x p IH]; intros [|y q]; simpl; try discriminate; auto.
  destruct (bool_decide (x = y)) eqn:E.
  - apply bool_decide_eq_true in E as <-.
    rewrite bool_decide_eq_true_2 by reflexivity. auto.
  - apply bool_decide_eq_false in E.
    rewrite bool_decide_eq_false_2 by congruence. apply text_leb_total.
Qed.

Lemma insert_sorted_head p l :
  match Path.insert_sorted p l with
  | [] => False
  | h :: _ => h = p \/ (exists t, l = h :: t)
  end.
Proof.
  destruct l as [|q l]; simpl; [by left|].
  destruct (Path.leb p q); [by left|right; eauto].
Qed.

Lemma insert_sorted_sorted p l :
  sorted_paths l = true -> sorted_paths (Path.insert_sorted p l) = true.
Proof.
  induction l as [|q l IH]; intros H; [reflexivity|].
  cbn [Path.insert_sorted]. destruct (Path.leb p q) eqn:Hpq.
  - cbn [sorted_paths]. rewrite Hpq. exact H.
  - cbn [sorted_paths] in H |- *. apply andb_prop in H as [Hh Ht].
    rewrite (IH Ht), andb_true_r.
    pose proof (insert_sorted_head p l) as Hd.
    destruct (Path.insert_sorted p l) as [|h t]; [reflexivity|].
    destruct Hd as [->|[t' ->]]; [by apply leb_total|exact Hh].
Qed.

Lemma sorted_sorted l : sorted_paths (Path.sorted l) = true.
Proof.
  induction l as [|p l IH]; [reflexivity|]. simpl. by apply insert_sorted_sorted.
Qed.

Lemma insert_sorted_NoDup p l :
  ~ In p l -> List.NoDup l -> List.NoDup (Path.insert_sorted p l).
Proof.
  induction l as [|q l IH]; intros Hp Hl; simpl.
  - constructor; [tauto|constructor].
  - destruct (Path.leb p q); [by constructor|].
    inversion Hl; subst. constructor.
    + rewrite Count.insert_sorted_In. simpl in Hp. tauto.
    + apply IH; [simpl in Hp; tauto|assumption].
Qed.

Lemma sorted_NoDup l : List.NoDup l -> List.NoDup (Path.sorted l).
Proof.
  induction l as [|p l IH]; intros H; [constructor|].
  inversion H; subst. simpl. apply insert_sorted_NoDup; [|auto].
  by rewrite Count.sorted_In.
Qed.

Lemma keys_In (fs : filesystem) p :
  In p (map fst (map_to_list fs)) <-> is_Some (fs !! p).
Proof.
  rewrite in_map_iff. split.
  - intros ([q x] & <- & H). apply list_elem_of_In, elem_of_map_to_list in H. eauto.
  - intros [x H]. exists (p, x). split; [reflexivity|].
    by apply list_elem_of_In, elem_of_map_to_list.
Qed.

Lemma keys_NoDup (fs : filesystem) : List.NoDup (map fst (map_to_list fs)).
Proof. apply NoDup_ListNoDup, NoDup_fst_map_to_list. Qed.

End Folder.

(** X11.  [_find_ddl_files] returns exactly the files below the directory
    whose suffix is [.sql], [.ddl], [.SQL] or [.DDL], each once, in the
    order of their paths. *)
Theorem find_ddl_files_exact (fs : filesystem) (directory f : path) :
  (In f (_find_ddl_files fs directory) <->
   Path.is_file fs f = true /\ Path.below directory f = true /\
   Path.suffix f ∈ sql_extensions) /\
  List.NoDup (_find_ddl_files fs directory) /\
  Shape.sorted_paths (_find_ddl_files fs directory) = true.
Proof.
  unfold _find_ddl_files. split; [|split].
  - rewrite Count.sorted_In, filter_In. unfold Path.rglob_files.
    rewrite filter_In, Folder.keys_In, andb_true_iff, bool_decide_eq_true.
    split.
    + intros [(_ & H1 & H2) H3]. auto.
    + intros (H1 & H2 & H3). split; [|assumption]. split; [|auto].
      unfold Path.is_file in H1. destruct (fs !! f); [eauto|discriminate].
  - apply Folder.sorted_NoDup, List.NoDup_filter, List.NoDup_filter, Folder.keys_NoDup.
  - apply Folder.sorted_sorted.
Qed.

(** ** The prompt for the input path *)

(** X12.  When [get_user_input] returns a path, the path is not empty and
    exists, and at least one line of the input has been read. *)
Theorem prompted_path_exists (fs : filesystem) (stdin rest : list Cli.stdin_event)
    (input_path : text) :
  Cli.get_user_input fs stdin = Cli.Answer input_path rest ->
  input_path <> [] /\
  Path.exists_ fs (Path.of_text input_path) = true /\
  (length rest < length stdin)%nat.
Proof.
  revert rest input_path.
  induction stdin as [stdin IH] using (well_founded_induction
    (well_founded_ltof _ (@length Cli.stdin_event))).
  intros rest input_path.
  destruct stdin as [|[l|] stdin]; cbn [Cli.get_user_input]; try discriminate.
  destruct (Str.strip l) as [|c t] eqn:Hl.
  { intros H. apply IH in H; [|unfold ltof; simpl; lia].
    simpl. intuition lia. }
  destruct (negb (Path.exists_ fs (Path.of_text (c :: t)))) eqn:He.
  { intros H. apply IH in H; [|unfold ltof; simpl; lia].
    simpl. intuition lia. }
  apply negb_false_iff in He.
  destruct (_ && _).
  - destruct stdin as [|[response|] stdin]; try discriminate.
    destruct (bool_decide _).
    + intros [= <- <-]. simpl. repeat split; [discriminate|assumption|lia].
    + intros H. apply IH in H; [|unfold ltof; simpl; lia].
      simpl. intuition lia.
  - intros [= <- <-]. simpl. repeat split; [discriminate|assumption|lia].
Qed.

Lemma prompted_path_exists_witness :
  Path.exists_ demo_fs (Path.of_text (str "demo.sql")) = true.
Proof.
  apply (prompted_path_exists demo_fs
           [Cli.Line (str ""); Cli.Line (str "nothing.sql"); Cli.Line (str " demo.sql ")]
           [] (str "demo.sql")).
  vm_compute. reflexivity.
Defined.

(** ** Counts and exit status *)

Module Counts.
Import Shape.

Lemma written_length e fs stem out i stmts :
  (length (Spec.written e fs stem out i stmts) <= length stmts)%nat.
Proof.
  unfold Spec.written. rewrite <- (Count.enumerate_length i stmts).
  apply List.filter_length_le.
Qed.

Lemma split_files_count e out : forall files fs n m,
  (snd (fst (split_files e out files (fs, n, m))) <= n + length files)%nat.
Proof.
  induction files as [|f files IH]; intros fs n m; [simpl; lia|].
  cbn [split_files].
  destruct (split_single_file e fs f (Path.join out (Path.stem f))) as [fs' [[t k]|]].
  - specialize (IH fs' (S n) (m + k)%nat). simpl. lia.
  - specialize (IH fs' n m). simpl. lia.
Qed.

(** A file stays a file in a run of [split_single_file]. *)
Lemma single_file_keeps_files e fs input out p :
  Path.is_file fs p = true ->
  Path.is_file (fst (split_single_file e fs input out)) p = true.
Proof.
  intros Hp. unfold split_single_file.
  destruct (Path.mkdir fs out) as [D|] eqn:Hmk; [|exact Hp].
  assert (HD : Path.is_file D p = true).
  { apply Files.mkdir_from_spec in Hmk as (_ & Hf & _). unfold Path.is_file in *.
    destruct (fs !! p) as [[c|]|] eqn:E; try discriminate.
    by rewrite (proj2 (Hf p c) E). }
  destruct (Path.read D input) as [content|]; [|exact HD].
  rewrite Loop.write_statements_spec. cbn [fst].
  generalize (map (Spec.output_of e (Path.stem input) out)
                (Spec.written e D (Path.stem input) out 1
                   (all_statements (normalize content)))).
  intros ws. clear Hmk. revert D HD.
  induction ws as [|[q d] ws IH]; intros D HD; [exact HD|].
  simpl. apply IH. unfold Path.is_file in *. cbn [fst snd].
  destruct (decide (q = p)) as [->|Hne].
  - by rewrite lookup_insert_eq.
  - by rewrite lookup_insert_ne.
Qed.

(** A run that counts a statement has written a file into the output
    directory. *)
Lemma single_file_success e fs input out t k :
  snd (split_single_file e fs input out) = Some (t, k) -> (0 < k)%nat ->
  exists p, Path.is_file (fst (split_single_file e fs input out)) p = true /\
            directly_in out p.
Proof.
  unfold split_single_file.
  destruct (Path.mkdir fs out) as [D|]; [|discriminate].
  destruct (Path.read D input) as [content|]; [|discriminate].
  rewrite Loop.write_statements_spec. cbn [fst snd].
  generalize (length (all_statements (normalize content))). intros a.
  remember (Spec.written e D (Path.stem input) out 1 (all_statements (normalize content)))
    as w0 eqn:Hw.
  intros H Hk.
  assert (k = length w0) as -> by (clear -H; injection H; intros; lia).
  destruct w0 as [|ns w]; [simpl in Hk; lia|]. symmetry in Hw.
  exists (Spec.target e (Path.stem input) out ns).
  split; [|by eexists].
  unfold Path.is_file.
  erewrite (Files.apply_writes_lookup _ _ (Spec.target e (Path.stem input) out ns)).
  - reflexivity.
  - rewrite Rerun.outputs_targets, <- Hw. apply Names.written_NoDup.
  - by left.
Qed.

Lemma split_files_keeps_files e out p : forall files fs n m,
  Path.is_file fs p = true ->
  Path.is_file (fst (fst (split_files e out files (fs, n, m)))) p = true.
Proof.
  induction files as [|f files IH]; intros fs n m Hp; [exact Hp|].
  cbn [split_files].
  pose proof (single_file_keeps_files e fs f (Path.join out (Path.stem f)) p Hp) as H.
  destruct (split_single_file e fs f (Path.join out (Path.stem f))) as [fs' [[t k]|]];
    cbn [fst] in H; by apply IH.
Qed.

Lemma split_files_success e out : forall files fs n m,
  (m < snd (split_files e out files (fs, n, m)))%nat ->
  exists p, Path.is_file (fst (fst (split_files e out files (fs, n, m)))) p = true /\
            at_or_below out p /\ p <> out.
Proof.
  induction files as [|f files IH]; intros fs n m Hm; [simpl in Hm; lia|].
  cbn [split_files] in *.
  pose proof (single_file_success e fs f (Path.join out (Path.stem f))) as Hs.
  destruct (split_single_file e fs f (Path.join out (Path.stem f))) as [fs' [[t k]|]];
    cbn [fst snd] in *.
  - destruct k as [|k].
    + rewrite Nat.add_0_r in *. by apply IH.
    + destruct (Hs t (S k) eq_refl ltac:(lia)) as (p & Hp & Hd).
      exists p. split; [by apply split_files_keeps_files|].
      split; [by eapply Frame.below_subdirectory, Frame.directly_in_below|].
      destruct Hd as [name ->]. unfold Path.join. intros E.
      apply (f_equal length) in E. rewrite !length_app in E. simpl in E. lia.
  - by apply IH.
Qed.

End Counts.

(** X13.  [split_single_file] never counts more statements as written
    than it has found, and the folder mode never counts more files as
    processed than [_find_ddl_files] has found. *)
Theorem counts_are_bounded (e : env) (fs : filesystem)
    (input_path output_dir : path) :
  match snd (split_single_file e fs input_path output_dir) with
  | Some (total_statements, successful_splits) =>
      (successful_splits <= total_statements)%nat
  | None => True
  end /\
  match snd (split_ddl e fs input_path output_dir) with
  | Some (files_processed, _) =>
      if Path.is_file fs input_path then files_processed = 1%nat
      else (files_processed <= length (_find_ddl_files fs input_path))%nat
  | None => True
  end.
Proof.
  split.
  - unfold split_single_file.
    destruct (Path.mkdir fs output_dir) as [D|]; [|exact I].
    destruct (Path.read D input_path) as [content|]; [|exact I].
    rewrite Loop.write_statements_spec. cbn [snd]. apply Counts.written_length.
  - unfold split_ddl. destruct (Path.is_file fs input_path).
    + by destruct (split_single_file e fs input_path output_dir) as [fs' [[t k]|]].
    + destruct (_find_ddl_files fs input_path) as [|f files]; [simpl; lia|].
      pose proof (Counts.split_files_count e output_dir (f :: files) fs 0%nat 0%nat) as H.
      destruct (split_files e output_dir (f :: files) (fs, 0%nat, 0%nat)) as [[fs' n] m].
      exact H.
Qed.

(** X14.  When the tool, called with an input path that is no help flag
    and not interrupted, exits with status 0, a file stands in the output
    directory or below it after the run. *)
Theorem exit_zero_means_a_file_was_written (e : env) (fs : filesystem)
    (prog a : text) (args : list text) (stdin : list Cli.stdin_event) :
  a ∉ [str "--help"; str "-h"; str "help"] ->
  Cli.main e fs (prog :: a :: args) stdin Cli.NoInterrupt = 0%Z ->
  let output_dir := output_dir_of fs a (head args) in
  exists p,
    Path.is_file (fst (split_ddl e fs (Path.of_text a) output_dir)) p = true /\
    Shape.at_or_below output_dir p /\ p <> output_dir.
Proof.
  intros Hhelp. cbn [Cli.main]. rewrite bool_decide_eq_false_2 by assumption.
  unfold Cli.validate_and_split.
  destruct (negb _); [discriminate|].
  set (out := output_dir_of fs a (head args)).
  unfold split_ddl.
  destruct (Path.is_file fs (Path.of_text a)).
  - pose proof (Counts.single_file_success e fs (Path.of_text a) out) as Hs.
    destruct (split_single_file e fs (Path.of_text a) out) as [fs' [[t k]|]];
      cbn [fst snd] in *; [|discriminate].
    destruct (0 <? k)%nat eqn:Hk; [|discriminate]. intros _.
    apply Nat.ltb_lt in Hk. destruct (Hs t k eq_refl Hk) as (p & Hp & Hd).
    exists p. split; [assumption|]. split; [by apply Frame.directly_in_below|].
    destruct Hd as [name ->]. unfold Path.join. intros E.
    apply (f_equal length) in E. rewrite !length_app in E. simpl in E. lia.
  - destruct (_find_ddl_files fs (Path.of_text a)) as [|f files]; [discriminate|].
    pose proof (Counts.split_files_success e out (f :: files) fs 0%nat 0%nat) as Hs.
    destruct (split_files e out (f :: files) (fs, 0%nat, 0%nat)) as [[fs' n] m].
    cbn [fst snd] in *.
    destruct (0 <? m)%nat eqn:Hm; [|discriminate]. intros _.
    apply Nat.ltb_lt in Hm. by apply Hs.
Qed.

Lemma exit_zero_means_a_file_was_written_witness :
  exists p,
    Path.is_file (fst (split_ddl demo_env demo_fs (Path.of_text (str "demo.sql"))
                                 (output_dir_of demo_fs (str "demo.sql") None))) p = true /\
    Shape.at_or_below (output_dir_of demo_fs (str "demo.sql") None) p /\
    p <> output_dir_of demo_fs (str "demo.sql") None.
Proof.
  apply (exit_zero_means_a_file_was_written demo_env demo_fs
           (str "ddl_splitter.py") (str "demo.sql") [] []).
  - intros H. apply list_elem_of_In in H. vm_compute in H. intuition discriminate.
  - vm_compute. reflexivity.
Defined.

(** ** A run with the default output directory *)

Module DefaultRun.
Import Shape.








End DefaultRun.


